(** * API-key middleware: validation, rate limiting and usage accounting

    A shallow embedding of [src/services/apiKeys/api_key_middleware.py]
    ([APIKeyValidator] and [APIKeyMiddleware]) together with the properties
    its specification states about it.

    Conventions of the embedding.
    - A Python [str] is a Rocq [string]; a character stands for the code
      point of the same number (U+0000 to U+00FF).
    - A Python [int] is a [Z]; a [float] read from the clock or from a
      header is the rational number it denotes, a [Q].
    - The [rate_limit_cache] dict is a [gmap string Z].
    - Code that raises returns [Raise e]; [try ... except Exception] is
      [try_except].  [exn] stands for the instances of [Exception].
    - The validator and the middleware run in a state monad over [world]:
      the Firestore collections, the cache, the clock, the script that says
      which store requests fail, the tasks handed to the event loop and the
      records written to the logger. *)

From Stdlib Require Import ZArith QArith Qround Qabs List String Ascii Lia Bool.
From stdpp Require Import gmap strings list fin_maps.

Open Scope Z_scope.

(* ===================================================================== *)
(** ** Python strings and integers *)
(* ===================================================================== *)

Module Py.

Definition ord (c : ascii) : Z := Z.of_N (N_of_ascii c).
Definition chr (n : Z) : ascii := ascii_of_N (Z.to_N n).

(** [zip(a, b)] on two strings: pairs of characters, as long as the
    shorter one. *)
Fixpoint zip (a b : string) : list (ascii * ascii) :=
  match a, b with
  | String x a', String y b' => (x, y) :: zip a' b'
  | _, _ => []
  end.

(** Truth value of a string: the empty string is false. *)
Definition truthy (s : string) : bool :=
  match s with EmptyString => false | String _ _ => true end.

Fixpoint startswith (s prefix : string) : bool :=
  match prefix, s with
  | EmptyString, _ => true
  | String p prefix', String c s' => Ascii.eqb p c && startswith s' prefix'
  | String _ _, EmptyString => false
  end.

(** [s[n:]] *)
Fixpoint slice_from (n : nat) (s : string) : string :=
  match n, s with
  | O, _ => s
  | S n', String _ s' => slice_from n' s'
  | S _, EmptyString => EmptyString
  end.

(** [s.split(sep)] for a separator of one character. *)
Fixpoint split (sep : ascii) (s : string) : list string :=
  match s with
  | EmptyString => [EmptyString]
  | String c s' =>
      if Ascii.eqb c sep then EmptyString :: split sep s'
      else match split sep s' with
           | field :: fields => String c field :: fields
           | [] => [String c EmptyString]
           end
  end.

(** [s.replace(old, new)] for [old] of one character. *)
Fixpoint replace (old : ascii) (new : string) (s : string) : string :=
  match s with
  | EmptyString => EmptyString
  | String c s' =>
      if Ascii.eqb c old then new +:+ replace old new s'
      else String c (replace old new s')
  end.

(** [s.encode()]: UTF-8. *)
Definition encode_char (c : ascii) : list Z :=
  let n := ord c in
  if n <? 128 then [n]
  else [Z.lor 0xC0 (Z.shiftr n 6); Z.lor 0x80 (Z.land n 0x3F)].

Fixpoint encode (s : string) : list Z :=
  match s with
  | EmptyString => []
  | String c s' => encode_char c ++ encode s'
  end.

(** *** [str(n)] for an integer *)

Definition digit_char (d : Z) : ascii := chr (48 + d).

Fixpoint digits (fuel : nat) (n : Z) (acc : string) : string :=
  match fuel with
  | O => acc
  | S fuel' =>
      let acc' := String (digit_char (n mod 10)) acc in
      if n <? 10 then acc' else digits fuel' (n / 10) acc'
  end.

Definition str_of_nat (n : Z) : string :=
  digits (S (Z.to_nat (Z.log2 n))) n EmptyString.

Definition str (n : Z) : string :=
  if n <? 0 then String "-" (str_of_nat (- n)) else str_of_nat n.

(** *** [int(s)] for a string

    CPython maps the white space U+0085 and U+00A0 to a blank, then reads
    blanks, an optional sign, decimal digits with single underscores
    between them, and blanks; anything else is a [ValueError] ([None]).
    The interpreter's limit on the number of digits is not modelled. *)

Definition isspace (c : ascii) : bool :=
  let n := ord c in
  ((9 <=? n) && (n <=? 13)) || (n =? 32) || (n =? 0x85) || (n =? 0xA0).

Definition isdigit (c : ascii) : bool :=
  let n := ord c in (48 <=? n) && (n <=? 57).

Fixpoint lstrip (l : list ascii) : list ascii :=
  match l with
  | c :: l' => if isspace c then lstrip l' else l
  | [] => []
  end.

Definition strip (l : list ascii) : list ascii := rev (lstrip (rev (lstrip l))).

Fixpoint int_digits (after_underscore : bool) (acc : Z) (l : list ascii) : option Z :=
  match l with
  | [] => if after_underscore then None else Some acc
  | c :: l' =>
      if isdigit c then int_digits false (acc * 10 + (ord c - 48)) l'
      else if Ascii.eqb c "_" then
             if after_underscore then None else int_digits true acc l'
      else None
  end.

Definition int_unsigned (l : list ascii) : option Z :=
  match l with
  | c :: _ => if isdigit c then int_digits false 0 l else None
  | [] => None
  end.

Definition int (s : string) : option Z :=
  match strip (list_ascii_of_string s) with
  | "+"%char :: l => int_unsigned l
  | "-"%char :: l => Z.opp <$> int_unsigned l
  | l => int_unsigned l
  end.

End Py.

(* ===================================================================== *)
(** ** [hashlib.sha256] *)
(* ===================================================================== *)

Module hashlib.

Definition w32 (x : Z) : Z := Z.land x 0xFFFFFFFF.
Definition add32 (x y : Z) : Z := w32 (x + y).
Definition rotr (n x : Z) : Z := Z.lor (Z.shiftr x n) (w32 (Z.shiftl x (32 - n))).
Definition not32 (x : Z) : Z := Z.lxor x 0xFFFFFFFF.
Definition Ch (x y z : Z) : Z := Z.lxor (Z.land x y) (Z.land (not32 x) z).
Definition Maj (x y z : Z) : Z :=
  Z.lxor (Z.lxor (Z.land x y) (Z.land x z)) (Z.land y z).
Definition Sigma0 (x : Z) : Z := Z.lxor (Z.lxor (rotr 2 x) (rotr 13 x)) (rotr 22 x).
Definition Sigma1 (x : Z) : Z := Z.lxor (Z.lxor (rotr 6 x) (rotr 11 x)) (rotr 25 x).
Definition sigma0 (x : Z) : Z := Z.lxor (Z.lxor (rotr 7 x) (rotr 18 x)) (Z.shiftr x 3).
Definition sigma1 (x : Z) : Z := Z.lxor (Z.lxor (rotr 17 x) (rotr 19 x)) (Z.shiftr x 10).

Definition K : list Z :=
  [ 0x428A2F98; 0x71374491; 0xB5C0FBCF; 0xE9B5DBA5; 0x3956C25B; 0x59F111F1; 0x923F82A4; 0xAB1C5ED5;
    0xD807AA98; 0x12835B01; 0x243185BE; 0x550C7DC3; 0x72BE5D74; 0x80DEB1FE; 0x9BDC06A7; 0xC19BF174;
    0xE49B69C1; 0xEFBE4786; 0x0FC19DC6; 0x240CA1CC; 0x2DE92C6F; 0x4A7484AA; 0x5CB0A9DC; 0x76F988DA;
    0x983E5152; 0xA831C66D; 0xB00327C8; 0xBF597FC7; 0xC6E00BF3; 0xD5A79147; 0x06CA6351; 0x14292967;
    0x27B70A85; 0x2E1B2138; 0x4D2C6DFC; 0x53380D13; 0x650A7354; 0x766A0ABB; 0x81C2C92E; 0x92722C85;
    0xA2BFE8A1; 0xA81A664B; 0xC24B8B70; 0xC76C51A3; 0xD192E819; 0xD6990624; 0xF40E3585; 0x106AA070;
    0x19A4C116; 0x1E376C08; 0x2748774C; 0x34B0BCB5; 0x391C0CB3; 0x4ED8AA4A; 0x5B9CCA4F; 0x682E6FF3;
    0x748F82EE; 0x78A5636F; 0x84C87814; 0x8CC70208; 0x90BEFFFA; 0xA4506CEB; 0xBEF9A3F7; 0xC67178F2 ].

Definition H0 : list Z :=
  [ 0x6A09E667; 0xBB67AE85; 0x3C6EF372; 0xA54FF53A; 0x510E527F; 0x9B05688C; 0x1F83D9AB; 0x5BE0CD19 ].

(** Bytes to 32-bit words, big endian. *)
Fixpoint be_words (bs : list Z) : list Z :=
  match bs with
  | a :: b :: c :: d :: rest =>
      Z.lor (Z.lor (Z.shiftl a 24) (Z.shiftl b 16)) (Z.lor (Z.shiftl c 8) d) :: be_words rest
  | _ => []
  end.

(** The message schedule, latest word first. *)
Fixpoint schedule (n : nat) (rev_w : list Z) : list Z :=
  match n with
  | O => rev_w
  | S n' =>
      let w := add32 (add32 (sigma1 (nth 1 rev_w 0)) (nth 6 rev_w 0))
                     (add32 (sigma0 (nth 14 rev_w 0)) (nth 15 rev_w 0)) in
      schedule n' (w :: rev_w)
  end.

Definition round (st : list Z) (kw : Z * Z) : list Z :=
  match st with
  | [a; b; c; d; e; f; g; h] =>
      let t1 := add32 (add32 (add32 h (Sigma1 e)) (add32 (Ch e f g) (fst kw))) (snd kw) in
      let t2 := add32 (Sigma0 a) (Maj a b c) in
      [add32 t1 t2; a; b; c; add32 d t1; e; f; g]
  | _ => st
  end.

Definition compress (h block : list Z) : list Z :=
  let w := rev (schedule 48 (rev (be_words block))) in
  let st := fold_left round (combine K w) h in
  map (fun p => add32 (fst p) (snd p)) (combine h st).

Definition be_bytes (n : nat) (x : Z) : list Z :=
  map (fun i => Z.land (Z.shiftr x (8 * Z.of_nat i)) 0xFF) (rev (seq 0 n)).

Definition pad (msg : list Z) : list Z :=
  let len := Z.of_nat (List.length msg) in
  msg ++ [0x80] ++ repeat 0 (Z.to_nat ((55 - len) mod 64)) ++ be_bytes 8 (8 * len).

Fixpoint blocks (n : nat) (h bs : list Z) : list Z :=
  match n with
  | O => h
  | S n' => blocks n' (compress h (firstn 64 bs)) (skipn 64 bs)
  end.

Definition sha256 (msg : list Z) : list Z :=
  let p := pad msg in
  concat (map (be_bytes 4) (blocks (List.length p / 64) H0 p)).

Definition hex_digit (d : Z) : ascii :=
  Py.chr (if d <? 10 then 48 + d else 87 + d).

Fixpoint hexdigest (bs : list Z) : string :=
  match bs with
  | [] => EmptyString
  | b :: rest =>
      String (hex_digit (Z.shiftr b 4)) (String (hex_digit (Z.land b 15)) (hexdigest rest))
  end.

End hashlib.

(* ===================================================================== *)
(** ** Exceptions, dates, documents *)
(* ===================================================================== *)

Inductive exn : Type :=
| IndexError
| ValueError
| TypeError
| GoogleAPICallError            (* a request to the store failed *)
| NotFound                      (* update of a document that does not exist *)
| HandlerError (detail : string). (* raised by the downstream handler *)

Inductive result (A : Type) : Type :=
| Ok (a : A)
| Raise (e : exn).
Arguments Ok {A} a.
Arguments Raise {A} e.

Definition exn_str (e : exn) : string :=
  match e with
  | IndexError => "list index out of range"
  | ValueError => "invalid literal"
  | TypeError => "unsupported operand"
  | GoogleAPICallError => "store unavailable"
  | NotFound => "no document to update"
  | HandlerError detail => detail
  end.

(** A [datetime]: the reading of a wall clock in microseconds since
    1970-01-01T00:00:00 on that clock, and the offset of the clock from UTC
    when the value is aware of its zone. *)
Record datetime : Type := mk_datetime { wall : Z; tzinfo : option Z }.

(** [d.replace(tzinfo=timezone.utc)] *)
Definition replace_tzinfo_utc (d : datetime) : datetime :=
  {| wall := wall d; tzinfo := Some 0 |}.

(** [a > b]: aware values compare as instants, naive ones as readings, and
    a naive value does not compare with an aware one. *)
Definition datetime_gt (a b : datetime) : result bool :=
  match tzinfo a, tzinfo b with
  | Some oa, Some ob => Ok (wall b - ob <? wall a - oa)
  | None, None => Ok (wall b <? wall a)
  | _, _ => Raise TypeError
  end.

(** The value of an [expires_at] field: ISO-8601 text or a timestamp
    object (one that has a [timestamp] attribute). *)
Inductive expires_value : Type :=
| ExpiresStr (s : string)
| ExpiresTimestamp (d : datetime).

(** A document of the [api_keys] collection.  [doc_data] in
    [validate_api_key] is this record: the fields of the snapshot and, under
    ['id'], the document id. *)
Record document : Type := mk_document {
  doc_id : string;
  doc_agent_id : string;
  doc_status : string;
  doc_key_hash : option string;
  doc_expires_at : option expires_value;
  doc_rate_limit : option Z;
  doc_created_by : option string;
  doc_organization_id : option string;
  doc_total_calls : Z;
  doc_last_used : option datetime
}.

(** The dict the middleware hands to [track_usage]. *)
Record usage_data : Type := mk_usage_data {
  ud_agent_id : string;
  ud_request_path : string;
  ud_method : string;
  ud_response_status : Z;
  ud_processing_time_ms : Q;
  ud_user_id : option string;
  ud_organization_id : option string;
  ud_tokens_used : option Z;
  ud_cost_usd : option Q
}.

(** A document of [api_key_usage_logs]. *)
Record usage_log : Type := mk_usage_log {
  ul_api_key_id : string;
  ul_agent_id : string;
  ul_request_path : string;
  ul_method : string;
  ul_timestamp : datetime;
  ul_response_status : Z;
  ul_tokens_used : Z;
  ul_cost_usd : Q;
  ul_user_id : option string;
  ul_organization_id : option string
}.

(** A document of [agent_usage_summary]. *)
Record summary : Type := mk_summary {
  agentId : string;
  totalMessages : Z;
  totalTokens : Z;
  totalCost : Q;
  apiKeyUsage : Z;
  webUsage : Z;
  lastActivity : datetime;
  createdAt : datetime;
  updatedAt : datetime
}.

Record firestore : Type := mk_firestore {
  api_keys : list document;
  api_key_usage_logs : list usage_log;
  agent_usage_summary : gmap string summary
}.

Inductive level : Type := INFO | WARNING | ERROR.

(* ===================================================================== *)
(** ** The world and its monad *)
(* ===================================================================== *)

Record world : Type := mk_world {
  db : firestore;                       (* the collections reached through [self.db] *)
  rate_limit_cache : gmap string Z;     (* [self.rate_limit_cache] *)
  clock : nat -> Q;                     (* successive readings of the clock, in seconds *)
  reads : nat;                          (* how many readings were taken *)
  outages : list bool;                  (* whether each coming store request fails *)
  tasks : list (string * usage_data);   (* [track_usage] calls given to [asyncio.create_task] *)
  logged : list (level * string)        (* records written to [logger], latest first *)
}.

Definition set_db (d : firestore) (w : world) : world :=
  mk_world d (rate_limit_cache w) (clock w) (reads w) (outages w) (tasks w) (logged w).
Definition set_cache (c : gmap string Z) (w : world) : world :=
  mk_world (db w) c (clock w) (reads w) (outages w) (tasks w) (logged w).
Definition set_reads (n : nat) (w : world) : world :=
  mk_world (db w) (rate_limit_cache w) (clock w) n (outages w) (tasks w) (logged w).
Definition set_outages (o : list bool) (w : world) : world :=
  mk_world (db w) (rate_limit_cache w) (clock w) (reads w) o (tasks w) (logged w).
Definition set_tasks (t : list (string * usage_data)) (w : world) : world :=
  mk_world (db w) (rate_limit_cache w) (clock w) (reads w) (outages w) t (logged w).
Definition set_logged (l : list (level * string)) (w : world) : world :=
  mk_world (db w) (rate_limit_cache w) (clock w) (reads w) (outages w) (tasks w) l.

Definition M (A : Type) : Type := world -> result A * world.

Definition ret {A} (a : A) : M A := fun w => (Ok a, w).

Definition bind {A B} (m : M A) (k : A -> M B) : M B :=
  fun w => match m w with
           | (Ok a, w') => k a w'
           | (Raise e, w') => (Raise e, w')
           end.

Definition raise {A} (e : exn) : M A := fun w => (Raise e, w).

(** [try: body except Exception as e: handler(e)] *)
Definition try_except {A} (body : M A) (handler : exn -> M A) : M A :=
  fun w => match body w with
           | (Ok a, w') => (Ok a, w')
           | (Raise e, w') => handler e w'
           end.

Definition lift {A} (r : result A) : M A := fun w => (r, w).

Notation "x <- c1 ;; c2" := (bind c1 (fun x => c2))
  (at level 100, c1 at next level, c2 at level 200, right associativity).
Notation "c1 ;; c2" := (bind c1 (fun _ => c2))
  (at level 100, c2 at level 200, right associativity).

(** [time.time()] *)
Definition time_time : M Q :=
  fun w => (Ok (clock w (reads w)), set_reads (S (reads w)) w).

(** [datetime.now(timezone.utc)] *)
Definition datetime_now_utc : M datetime :=
  t <- time_time ;;
  ret {| wall := Qfloor (t * 1000000); tzinfo := Some 0 |}.

Definition log (l : level) (msg : string) : M unit :=
  fun w => (Ok tt, set_logged ((l, msg) :: logged w) w).

(** One request to the store: the head of the script says whether it
    fails; a store with an empty script answers. *)
Definition store_request : M unit :=
  fun w => match outages w with
           | true :: rest => (Raise GoogleAPICallError, set_outages rest w)
           | false :: rest => (Ok tt, set_outages rest w)
           | [] => (Ok tt, w)
           end.

Definition get_db : M firestore := fun w => (Ok (db w), w).
Definition put_db (d : firestore) : M unit := fun w => (Ok tt, set_db d w).
Definition get_cache : M (gmap string Z) := fun w => (Ok (rate_limit_cache w), w).
Definition put_cache (c : gmap string Z) : M unit := fun w => (Ok tt, set_cache c w).

(** [asyncio.create_task(self.validator.track_usage(id, usage))]: the call
    is handed to the event loop and runs after the caller returns. *)
Definition create_task (api_key_id : string) (usage : usage_data) : M unit :=
  fun w => (Ok tt, set_tasks (tasks w ++ [(api_key_id, usage)]) w).

(* ===================================================================== *)
(** ** [APIKeyValidator] *)
(* ===================================================================== *)

(** [_secure_compare(a, b)] *)
Definition _secure_compare (a b : string) : bool :=
  if negb (String.length a =? String.length b)%nat then false
  else
    let result :=
      fold_left (fun result xy => Z.lor result (Z.lxor (Py.ord (fst xy)) (Py.ord (snd xy))))
                (Py.zip a b) 0 in
    result =? 0.

(** [hashlib.sha256(api_key.encode()).hexdigest()] *)
Definition sha256_hexdigest (api_key : string) : string :=
  hashlib.hexdigest (hashlib.sha256 (Py.encode api_key)).

(** [api_keys_ref.where('agent_id', '==', agent_id)
                 .where('status', '==', 'active').stream()] *)
Definition stream_active_keys (agent_id : string) : M (list document) :=
  store_request ;;
  d <- get_db ;;
  ret (List.filter
         (fun doc => String.eqb (doc_agent_id doc) agent_id && String.eqb (doc_status doc) "active")
         (api_keys d)).

(** Truth value of an [expires_at] value. *)
Definition expires_truthy (v : expires_value) : bool :=
  match v with
  | ExpiresStr s => Py.truthy s
  | ExpiresTimestamp _ => true
  end.

(** [int(current_time // 60)] *)
Definition minute_of (current_time : Q) : Z := Qfloor (current_time / 60).

(** [f"{api_key_id}:{minute_window}"] *)
Definition cache_key_of (api_key_id : string) (minute_window : Z) : string :=
  api_key_id +:+ ":" +:+ Py.str minute_window.

(** [int(cache_key.split(':')[1])] *)
Definition cache_minute_of (cache_key : string) : result Z :=
  match Py.split ":" cache_key !! 1%nat with
  | None => Raise IndexError
  | Some field =>
      match Py.int field with
      | None => Raise ValueError
      | Some cache_minute => Ok cache_minute
      end
  end.

(** The loop that fills [keys_to_remove].  The keys come in the order of
    [map_to_list]; the order of a dict decides only which of several
    exceptions is raised. *)
Fixpoint keys_to_remove_of (minute_window : Z) (cache_keys : list string) : result (list string) :=
  match cache_keys with
  | [] => Ok []
  | cache_key :: rest =>
      match cache_minute_of cache_key with
      | Raise e => Raise e
      | Ok cache_minute =>
          match keys_to_remove_of minute_window rest with
          | Raise e => Raise e
          | Ok keys_to_remove =>
              Ok (if cache_minute <? minute_window - 1
                  then cache_key :: keys_to_remove else keys_to_remove)
          end
      end
  end.

(** [check_rate_limit(api_key_id, rate_limit)] *)
Definition check_rate_limit (api_key_id : string) (rate_limit : Z) : M bool :=
  current_time <- time_time ;;
  let minute_window := minute_of current_time in
  let key := cache_key_of api_key_id minute_window in
  cache <- get_cache ;;
  match cache !! key with
  | None => put_cache (<[key := 0]> cache)
  | Some _ => ret tt
  end ;;
  cache <- get_cache ;;
  if rate_limit <=? default 0 (cache !! key) then ret false
  else
    put_cache (<[key := default 0 (cache !! key) + 1]> cache) ;;
    cache <- get_cache ;;
    keys_to_remove <- lift (keys_to_remove_of minute_window (map fst (map_to_list cache))) ;;
    put_cache (foldr delete cache keys_to_remove) ;;
    ret true.

(** The value that [firestore.SERVER_TIMESTAMP] stands for. *)
Definition server_timestamp : M datetime :=
  fun w => (Ok {| wall := Qfloor (clock w (reads w) * 1000000); tzinfo := Some 0 |}, w).

(** [api_key_ref.update({'total_calls': Increment(1),
                         'last_used': SERVER_TIMESTAMP})] *)
Definition update_api_key (api_key_id : string) : M unit :=
  store_request ;;
  now <- server_timestamp ;;
  d <- get_db ;;
  if existsb (fun doc => String.eqb (doc_id doc) api_key_id) (api_keys d) then
    put_db
      (mk_firestore
         (map (fun doc =>
                 if String.eqb (doc_id doc) api_key_id then
                   mk_document (doc_id doc) (doc_agent_id doc) (doc_status doc) (doc_key_hash doc)
                     (doc_expires_at doc) (doc_rate_limit doc) (doc_created_by doc)
                     (doc_organization_id doc) (doc_total_calls doc + 1) (Some now)
                 else doc)
              (api_keys d))
         (api_key_usage_logs d) (agent_usage_summary d))
  else raise NotFound.

(** [self.db.collection('api_key_usage_logs').add(usage_log)] *)
Definition add_usage_log (entry : usage_log) : M unit :=
  store_request ;;
  d <- get_db ;;
  put_db (mk_firestore (api_keys d) (api_key_usage_logs d ++ [entry]) (agent_usage_summary d)).

(** [floor(log2 a)] for a rational [a] above zero. *)
Definition floor_log2 (a : Q) : Z :=
  let e := Z.log2 (Qnum a) - Z.log2 (Z.pos (Qden a)) in
  if Qle_bool (Qpower 2 e) a then e else e - 1.

(** The integer nearest to [y], the even one when [y] lies half way. *)
Definition round_half_even (y : Q) : Z :=
  let f := Qfloor y in
  match ((y - inject_Z f) * 2 ?= 1)%Q with
  | Lt => f
  | Gt => f + 1
  | Eq => if Z.even f then f else f + 1
  end.

(** The double nearest to the rational [x], ties to the even significand:
    the value that IEEE 754 binary64 arithmetic returns where [x] is the
    exact result.  Significands have 53 bits; below [2^-1022] the spacing
    stays [2^-1074].  The model holds no infinity: a result beyond the
    largest double is outside of it, as is a cost that is no finite
    number. *)
Definition double_of (x : Q) : Q :=
  if Qeq_bool x 0 then 0%Q
  else
    let a := Qabs x in
    let e := Z.max (floor_log2 a) (-1022) in
    let quantum := Qpower 2 (e - 52) in
    let k := round_half_even (a / quantum) in
    Qred ((if Qle_bool 0 x then 1 else -1) * inject_Z k * quantum).

(** [firestore.Increment(operand)] on a field that holds the double
    [value], with a double [operand]: the store adds in double
    arithmetic. *)
Definition increment_double (value operand : Q) : Q := double_of (value + operand).

(** [_update_agent_billing_summary(agent_id, tokens, cost)] *)
Definition _update_agent_billing_summary (agent_id : string) (tokens : Z) (cost : Q) : M unit :=
  try_except
    (store_request ;;                          (* doc = summary_ref.get() *)
     d <- get_db ;;
     match agent_usage_summary d !! agent_id with
     | Some s =>
         store_request ;;                      (* summary_ref.update(...) *)
         now <- server_timestamp ;;
         put_db
           (mk_firestore (api_keys d) (api_key_usage_logs d)
              (<[agent_id :=
                   mk_summary (agentId s) (totalMessages s + 1) (totalTokens s + tokens)
                     (increment_double (totalCost s) cost) (apiKeyUsage s + 1) (webUsage s)
                     now (createdAt s) now]> (agent_usage_summary d)))
     | None =>
         store_request ;;                      (* summary_ref.set(...) *)
         now <- server_timestamp ;;
         put_db
           (mk_firestore (api_keys d) (api_key_usage_logs d)
              (<[agent_id := mk_summary agent_id 1 tokens cost 1 0 now now now]>
                 (agent_usage_summary d)))
     end)
    (fun e => log ERROR ("Failed to update agent billing summary: " +:+ exn_str e)).

(** [track_usage(api_key_id, usage_data)] *)
Definition track_usage (api_key_id : string) (usage_data : usage_data) : M unit :=
  try_except
    (update_api_key api_key_id ;;
     timestamp <- datetime_now_utc ;;
     let usage_log :=
       {| ul_api_key_id := api_key_id;
          ul_agent_id := ud_agent_id usage_data;
          ul_request_path := ud_request_path usage_data;
          ul_method := ud_method usage_data;
          ul_timestamp := timestamp;
          ul_response_status := ud_response_status usage_data;
          ul_tokens_used := default 0 (ud_tokens_used usage_data);
          ul_cost_usd := default 0%Q (ud_cost_usd usage_data);
          ul_user_id := ud_user_id usage_data;
          ul_organization_id := ud_organization_id usage_data |} in
     add_usage_log usage_log ;;
     (if negb (Qle_bool (default 0%Q (ud_cost_usd usage_data)) 0) then
        _update_agent_billing_summary
          (ud_agent_id usage_data)
          (default 0 (ud_tokens_used usage_data))
          (default 0%Q (ud_cost_usd usage_data))
      else ret tt) ;;
     log INFO ("Usage tracked for API key " +:+ api_key_id))
    (fun e =>
       log ERROR ("Failed to track usage for API key " +:+ api_key_id +:+ ": " +:+ exn_str e)).

(** The event loop runs the oldest task it was given. *)
Definition run_task : M unit :=
  fun w => match tasks w with
           | [] => (Ok tt, w)
           | (api_key_id, usage) :: rest => track_usage api_key_id usage (set_tasks rest w)
           end.

(** Successive calls of [check_rate_limit], each a pair of a key id and
    that key's limit, with the answers in order. *)
Fixpoint check_rate_limits (calls : list (string * Z)) : M (list bool) :=
  match calls with
  | [] => ret []
  | (api_key_id, rate_limit) :: rest =>
      answer <- check_rate_limit api_key_id rate_limit ;;
      answers <- check_rate_limits rest ;;
      ret (answer :: answers)
  end.

(* ===================================================================== *)
(** ** Requests and responses *)
(* ===================================================================== *)

(** [request.state] *)
Record request_state : Type := mk_request_state {
  api_key_id : option string;
  api_key_user_id : option string;
  organization_id : option string;
  auth_method : option string
}.

Record Request : Type := mk_request {
  authorization : option string;        (* [request.headers.get("Authorization")] *)
  url_path : string;
  method : string;
  state : request_state
}.

Record Response : Type := mk_response {
  status_code : Z;
  headers : list (string * string);
  body : string
}.

(** [JSONResponse(status_code=..., content={"detail": ...})] *)
Definition JSONResponse (status_code : Z) (detail : string) : Response :=
  {| status_code := status_code; headers := []; body := detail |}.

Definition lower_char (c : ascii) : ascii :=
  let n := Py.ord c in
  if (65 <=? n) && (n <=? 90) then Py.chr (n + 32) else c.

Fixpoint lower (s : string) : string :=
  match s with
  | EmptyString => EmptyString
  | String c s' => String (lower_char c) (lower s')
  end.

(** [response.headers[name]], [None] when [name not in response.headers];
    header names are ASCII and compare without case. *)
Fixpoint header_get (name : string) (hs : list (string * string)) : option string :=
  match hs with
  | [] => None
  | (n, v) :: hs' => if String.eqb (lower n) (lower name) then Some v else header_get name hs'
  end.

(** [round(x, 2)] on the rational [x]: to the nearest hundredth, ties to
    the even one. *)
Definition round2 (x : Q) : Q :=
  let y := (x * 100)%Q in
  let f := Qfloor y in
  let twice_rest := Qfloor ((y - inject_Z f) * 2) in
  let up := if Qeq_bool ((y - inject_Z f) * 2) 1 then Z.odd f else 1 <=? twice_rest in
  (inject_Z (if up then f + 1 else f) / 100)%Q.

(* ===================================================================== *)
(** ** [validate_api_key] and [APIKeyMiddleware] *)
(* ===================================================================== *)

Section Program.

(** [datetime.fromisoformat] and [float] on text, [None] where they
    raise [ValueError]. *)
Variable fromisoformat : string -> option datetime.
Variable float : string -> option Q.

(** Lines 87 to 97 of [validate_api_key]: whether the key has expired. *)
Definition has_expired (doc_data : document) : M bool :=
  match doc_expires_at doc_data with
  | Some v =>
      if expires_truthy v then
        expires_at <-
          match v with
          | ExpiresStr s =>
              match fromisoformat (Py.replace "Z" "+00:00" s) with
              | Some d => ret d
              | None => raise ValueError
              end
          | ExpiresTimestamp d => ret (replace_tzinfo_utc d)
          end ;;
        now <- datetime_now_utc ;;
        lift (datetime_gt now expires_at)
      else ret false
  | None => ret false
  end.

(** The [for doc in query] loop of [validate_api_key]. *)
Fixpoint validate_loop (key_hash agent_id : string) (query : list document)
  : M (option document) :=
  match query with
  | [] =>
      log WARNING ("Invalid API key for agent " +:+ agent_id) ;;
      ret None
  | doc_data :: rest =>
      let stored_hash := doc_key_hash doc_data in
      if match stored_hash with
         | Some stored_hash => Py.truthy stored_hash && _secure_compare key_hash stored_hash
         | None => false
         end
      then
        expired <- has_expired doc_data ;;
        if (expired : bool) then
          log WARNING ("Expired API key for agent " +:+ agent_id) ;;
          ret None
        else
          log INFO ("Valid API key authenticated for agent " +:+ agent_id) ;;
          ret (Some doc_data)
      else validate_loop key_hash agent_id rest
  end.

(** [validate_api_key(api_key, agent_id)] *)
Definition validate_api_key (api_key agent_id : string) : M (option document) :=
  try_except
    (let key_hash := sha256_hexdigest api_key in
     query <- stream_active_keys agent_id ;;
     validate_loop key_hash agent_id query)
    (fun e =>
       log ERROR ("Error validating API key: " +:+ exn_str e) ;;
       ret None).

(** [request] after the four assignments to [request.state]. *)
Definition with_identity (key_doc : document) (request : Request) : Request :=
  {| authorization := authorization request;
     url_path := url_path request;
     method := method request;
     state := {| api_key_id := Some (doc_id key_doc);
                 api_key_user_id := doc_created_by key_doc;
                 organization_id := doc_organization_id key_doc;
                 auth_method := Some "api_key"%string |} |}.

(** The body of the [try] of [__call__]: the path of a request that
    carries an API key. *)
Definition authenticated (agent_id api_key : string) (start_time : Q) (request : Request)
           (call_next : Request -> M Response) : M Response :=
  key_doc <- validate_api_key api_key agent_id ;;
  match key_doc with
  | None => ret (JSONResponse 401 "Invalid or inactive API key")
  | Some key_doc =>
      let rate_limit := default 100 (doc_rate_limit key_doc) in
      allowed <- check_rate_limit (doc_id key_doc) rate_limit ;;
      if negb allowed then ret (JSONResponse 429 "Rate limit exceeded")
      else
        let request := with_identity key_doc request in
        response <- call_next request ;;
        end_time <- time_time ;;
        let processing_time := (end_time - start_time)%Q in
        tokens_used <-
          match header_get "X-Token-Count" (headers response) with
          | Some text =>
              match Py.int text with
              | Some n => ret (Some n)
              | None => raise ValueError
              end
          | None => ret None
          end ;;
        cost_usd <-
          match header_get "X-Cost-USD" (headers response) with
          | Some text =>
              match float text with
              | Some x => ret (Some x)
              | None => raise ValueError
              end
          | None => ret None
          end ;;
        let usage_data :=
          {| ud_agent_id := agent_id;
             ud_request_path := url_path request;
             ud_method := method request;
             ud_response_status := status_code response;
             ud_processing_time_ms := round2 (processing_time * 1000);
             ud_user_id := doc_created_by key_doc;
             ud_organization_id := doc_organization_id key_doc;
             ud_tokens_used := tokens_used;
             ud_cost_usd := cost_usd |} in
        create_task (doc_id key_doc) usage_data ;;
        ret response
  end.

(** [APIKeyMiddleware.__call__(request, call_next)]; [agent_id] is
    [self.agent_id]. *)
Definition __call__ (agent_id : string) (request : Request)
           (call_next : Request -> M Response) : M Response :=
  start_time <- time_time ;;
  match authorization request with
  | Some auth_header =>
      if Py.truthy auth_header && Py.startswith auth_header "Bearer ak_" then
        let api_key := Py.slice_from 7 auth_header in
        try_except
          (authenticated agent_id api_key start_time request call_next)
          (fun e =>
             log ERROR ("API key validation error: " +:+ exn_str e) ;;
             ret (JSONResponse 500 "API key validation failed"))
      else call_next request
  | None => call_next request
  end.

(** The instant, in microseconds of UTC, that an [expires_at] value
    names: a timestamp object is read on the UTC clock, as
    [replace(tzinfo=timezone.utc)] does; text names an instant when it
    parses to a date with a zone. *)
Definition expiry_instant (v : expires_value) : option Z :=
  match v with
  | ExpiresTimestamp d => Some (wall d)
  | ExpiresStr s =>
      match fromisoformat (Py.replace "Z" "+00:00" s) with
      | Some d => match tzinfo d with
                  | Some offset => Some (wall d - offset)
                  | None => None
                  end
      | None => None
      end
  end.

(** [expires_at] is set and lies before [now]. *)
Definition expires_in_past (now : Z) (d : document) : bool :=
  match doc_expires_at d with
  | Some v => expires_truthy v &&
              match expiry_instant v with Some t => t <? now | None => false end
  | None => false
  end.

(** [expires_at] is not set, or names an instant that is not before
    [now]. *)
Definition not_expired (now : Z) (d : document) : bool :=
  match doc_expires_at d with
  | Some v => negb (expires_truthy v) ||
              match expiry_instant v with Some t => now <=? t | None => false end
  | None => true
  end.

End Program.

(* ===================================================================== *)
(** ** Notions used to state the properties *)
(* ===================================================================== *)

(** What [datetime.now(timezone.utc)] reads in [w], in microseconds. *)
Definition utc_now (w : world) : Z := Qfloor (clock w (reads w) * 1000000).

(** The minute bucket of the next reading of the clock. *)
Definition bucket (w : world) : Z := minute_of (clock w (reads w)).

(** The documents that the query of [validate_api_key] streams. *)
Definition active_keys (agent_id : string) (w : world) : list document :=
  List.filter
    (fun doc => String.eqb (doc_agent_id doc) agent_id && String.eqb (doc_status doc) "active")
    (api_keys (db w)).

(** The next store request is answered. *)
Definition store_answers (w : world) : bool :=
  match outages w with
  | true :: _ => false
  | _ => true
  end.

(** The key id holds no [':']. *)
Fixpoint colon_free (s : string) : bool :=
  match s with
  | EmptyString => true
  | String c s' => negb (Ascii.eqb c ":") && colon_free s'
  end.

(** The count that the cache holds under [key], 0 when it holds none. *)
Definition count_of (cache : gmap string Z) (key : string) : Z := default 0 (cache !! key).

(** The cleaning loop keeps [cache_key] in minute [minute_window]. *)
Definition fresh_key (minute_window : Z) (cache_key : string) : bool :=
  match cache_minute_of cache_key with
  | Ok cache_minute => negb (cache_minute <? minute_window - 1)
  | Raise _ => true
  end.

(** The cleaning loop can read the minute of [cache_key]. *)
Definition readable_key (cache_key : string) : Prop :=
  exists cache_minute, cache_minute_of cache_key = Ok cache_minute.

Definition readable (cache : gmap string Z) : Prop :=
  forall k v, cache !! k = Some v -> readable_key k.

(** The states of the cache that the validator can be in: empty when it is
    constructed, then changed by [check_rate_limit] alone. *)
Inductive reachable : world -> Prop :=
| reachable_init w :
    rate_limit_cache w = ∅ -> reachable w
| reachable_call api_key_id rate_limit w :
    reachable w -> reachable (snd (check_rate_limit api_key_id rate_limit w))
| reachable_other w w' :
    reachable w -> rate_limit_cache w' = rate_limit_cache w -> reachable w'.

(** The answers given to the calls made for [api_key_id]. *)
Fixpoint answers_for (api_key_id : string) (calls : list (string * Z)) (answers : list bool)
  : list bool :=
  match calls, answers with
  | (id, _) :: calls', a :: answers' =>
      if String.eqb id api_key_id then a :: answers_for api_key_id calls' answers'
      else answers_for api_key_id calls' answers'
  | _, _ => []
  end.

Definition is_digit_value (d : Z) : Prop := 0 <= d <= 9.

Definition value_of (ds : list Z) (acc : Z) : Z := fold_left (fun a d => a * 10 + d) ds acc.

(** [m], when it returns, has [(l, msg)] as the latest record of the log. *)
(** No count is negative. *)
Definition nonneg (cache : gmap string Z) : Prop := map_Forall (fun _ v => 0 <= v) cache.

(** [m] leaves the cache as it found it. *)
Definition keeps_cache {A} (m : M A) : Prop :=
  forall w, rate_limit_cache (snd (m w)) = rate_limit_cache w.

(** The next [k] readings of the clock fall in minute [m]. *)
Definition readings_in (m : Z) (k : nat) (w : world) : Prop :=
  forall i, (i < k)%nat -> minute_of (clock w (reads w + i)%nat) = m.

(** The number of calls allowed among [answers]. *)
Definition allowed (answers : list bool) : Z := Z.of_nat (count_occ bool_dec answers true).

(** The number of calls refused among [answers]. *)
Definition throttled (answers : list bool) : Z := Z.of_nat (count_occ bool_dec answers false).

(** The calls made for [api_key_id]. *)
Definition calls_for (api_key_id : string) (calls : list (string * Z)) : list (string * Z) :=
  List.filter (fun call => String.eqb (fst call) api_key_id) calls.

(* ===================================================================== *)
(** ** Sample readers, documents and worlds *)
(* ===================================================================== *)

(** The value of a text of decimal digits. *)
Definition number (l : list ascii) : option Z :=
  match l with
  | [] => None
  | _ => if forallb Py.isdigit l then Py.int_digits false 0 l else None
  end.

(** Days from 1970-01-01 to the day [d] of month [m] of year [y]. *)
Definition days_from_civil (y m d : Z) : Z :=
  let y' := if m <=? 2 then y - 1 else y in
  let era := y' / 400 in
  let yoe := y' - era * 400 in
  let doy := (153 * ((m + 9) mod 12) + 2) / 5 + d - 1 in
  era * 146097 + (yoe * 365 + yoe / 4 - yoe / 100 + doy) - 719468.

(** An instance of [datetime.fromisoformat] for the examples: it reads
    the texts [YYYY-MM-DDTHH:MM:SS], alone or followed by an offset [+HH:MM]
    or [-HH:MM], as Python does, and no others. *)
Definition fromisoformat_basic (s : string) : option datetime :=
  let l := list_ascii_of_string s in
  let field (from len : nat) := number (firstn len (skipn from l)) in
  let mark (at_ : nat) (c : ascii) :=
    match nth_error l at_ with Some c' => Ascii.eqb c c' | None => false end in
  match field 0%nat 4%nat, field 5%nat 2%nat, field 8%nat 2%nat,
        field 11%nat 2%nat, field 14%nat 2%nat, field 17%nat 2%nat with
  | Some y, Some mo, Some d, Some h, Some mi, Some sec =>
      if mark 4%nat "-"%char && mark 7%nat "-"%char && mark 10%nat "T"%char
         && mark 13%nat ":"%char && mark 16%nat ":"%char
         && (1 <=? mo) && (mo <=? 12) && (1 <=? d)
         && (d <=? days_from_civil (if mo =? 12 then y + 1 else y) (if mo =? 12 then 1 else mo + 1) 1
                    - days_from_civil y mo 1)
         && (h <? 24) && (mi <? 60) && (sec <? 60) && (1 <=? y)
      then
        let seconds := days_from_civil y mo d * 86400 + h * 3600 + mi * 60 + sec in
        match skipn 19 l with
        | [] => Some {| wall := seconds * 1000000; tzinfo := None |}
        | sign :: _ =>
            match field 20%nat 2%nat, field 23%nat 2%nat with
            | Some oh, Some om =>
                if (Ascii.eqb sign "+" || Ascii.eqb sign "-") && mark 22%nat ":"%char
                   && (List.length l =? 25)%nat && (oh <? 24) && (om <? 60)
                then
                  let offset := (oh * 3600 + om * 60) * 1000000 in
                  Some {| wall := seconds * 1000000;
                          tzinfo := Some (if Ascii.eqb sign "-" then - offset else offset) |}
                else None
            | _, _ => None
            end
        end
      else None
  | _, _, _, _, _, _ => None
  end.

(** An instance of [float] on text for the examples: it reads decimal
    digits, alone or followed by a point and more digits. *)
Definition float_basic (s : string) : option Q :=
  match Py.split "." s with
  | [whole] => inject_Z <$> number (list_ascii_of_string whole)
  | [whole; fraction] =>
      match number (list_ascii_of_string whole), number (list_ascii_of_string fraction) with
      | Some a, Some b =>
          Some (inject_Z a + inject_Z b / inject_Z (10 ^ Z.of_nat (String.length fraction)))%Q
      | _, _ => None
      end
  | _ => None
  end.

Definition key_live : document :=
  {| doc_id := "key1"; doc_agent_id := "agent-1"; doc_status := "active";
     doc_key_hash := Some (sha256_hexdigest "ak_live");
     doc_expires_at := Some (ExpiresStr "2099-01-01T00:00:00Z");
     doc_rate_limit := Some 2;
     doc_created_by := Some "user-1"%string; doc_organization_id := None;
     doc_total_calls := 0; doc_last_used := None |}.

Definition key_old : document :=
  {| doc_id := "key2"; doc_agent_id := "agent-1"; doc_status := "active";
     doc_key_hash := Some (sha256_hexdigest "ak_old");
     doc_expires_at :=
       Some (ExpiresTimestamp {| wall := 1577836800000000; tzinfo := Some 0 |});
     doc_rate_limit := None;
     doc_created_by := Some "user-1"%string; doc_organization_id := None;
     doc_total_calls := 7; doc_last_used := None |}.

Definition key_zero : document :=
  {| doc_id := "key3"; doc_agent_id := "agent-1"; doc_status := "active";
     doc_key_hash := Some (sha256_hexdigest "ak_zero");
     doc_expires_at := None;
     doc_rate_limit := Some 0;
     doc_created_by := None; doc_organization_id := None;
     doc_total_calls := 0; doc_last_used := None |}.

(** A validator as constructed, at 2023-11-14T22:13:20Z; the store holds
    three keys and answers. *)
Definition sample_world : world :=
  {| db := {| api_keys := [key_live; key_old; key_zero];
              api_key_usage_logs := [];
              agent_usage_summary := ∅ |};
     rate_limit_cache := ∅;
     clock := fun _ => 1700000000%Q;
     reads := 0;
     outages := [];
     tasks := [];
     logged := [] |}.

(** The same with a store that fails the next request. *)
Definition outage_world : world := set_outages [true] sample_world.

(** A clock that reads minute 50, then minute 100. *)
Definition late_world : world :=
  mk_world (db sample_world) ∅ (fun n => match n with O => 3000%Q | _ => 6000%Q end)
           0 [] [] [].

Definition sample_request (auth_header : option string) : Request :=
  {| authorization := auth_header; url_path := "/chat"; method := "POST";
     state := {| api_key_id := None; api_key_user_id := None;
                 organization_id := None; auth_method := None |} |}.

Definition echo_handler (request : Request) : M Response :=
  ret {| status_code := 200; headers := [("X-Token-Count", "42")]%string; body := "ok" |}.

Definition failing_handler (request : Request) : M Response :=
  raise (HandlerError "handler failed").

(** A clock that reads minute 28333333 three times, then the next minute. *)
Definition window_world : world :=
  mk_world (db sample_world) ∅
           (fun n => if (n <? 3)%nat then 1700000000%Q else 1700000060%Q)
           0 [] [] [].

(* ===================================================================== *)
(** ** Notions for the further properties *)
(* ===================================================================== *)

(** Every entry of the cache was written for a key id without [':']: its
    key is [f"{api_key_id}:{minute_window}"] for such an id, and
    [minute_window], the minute in which the entry was counted, is the
    minute bucket of the entry. *)
Definition colon_free_entries (cache : gmap string Z) : Prop :=
  forall k v, cache !! k = Some v ->
              exists api_key_id minute_window,
                colon_free api_key_id = true /\ k = cache_key_of api_key_id minute_window.

(** [m] leaves what [proj] observes of the world as it found it. *)
Definition keeps {A X} (proj : world -> X) (m : M A) : Prop :=
  forall w, proj (snd (m w)) = proj w.

(** [proj] observes nothing that a log record, a reading of the clock or
    a store request changes. *)
Definition blind_to_reads {X} (proj : world -> X) : Prop :=
  (forall l w, proj (set_logged l w) = proj w) /\
  (forall n w, proj (set_reads n w) = proj w) /\
  (forall o w, proj (set_outages o w) = proj w).

(** What [validate_api_key] has no business changing. *)
Definition stored_state (w : world) : firestore * gmap string Z * list (string * usage_data) :=
  (db w, rate_limit_cache w, tasks w).

(** Every entry of the cache is of minute [m] or of the minute before. *)
Definition in_window (m : Z) (cache : gmap string Z) : Prop :=
  forall k v, cache !! k = Some v ->
              exists cache_minute, cache_minute_of k = Ok cache_minute /\ m - 1 <= cache_minute <= m.


(** The next [k] readings of the clock never fall in an earlier minute
    than the reading before. *)
Definition clock_moves_on (k : nat) (w : world) : Prop :=
  forall i, (S i < k)%nat ->
            minute_of (clock w (reads w + i)%nat) <= minute_of (clock w (reads w + S i)%nat).

(** The usage headers of a response as [__call__] reads them: [None] when
    [int] or [float] raises. *)
Definition read_tokens (response : Response) : option (option Z) :=
  match header_get "X-Token-Count" (headers response) with
  | Some text => match Py.int text with Some n => Some (Some n) | None => None end
  | None => Some None
  end.

Definition read_cost (float : string -> option Q) (response : Response) : option (option Q) :=
  match header_get "X-Cost-USD" (headers response) with
  | Some text => match float text with Some x => Some (Some x) | None => None end
  | None => Some None
  end.


(** A document of [api_keys] after one more call was counted at [now]. *)
Definition counted_call (now : datetime) (doc : document) : document :=
  mk_document (doc_id doc) (doc_agent_id doc) (doc_status doc) (doc_key_hash doc)
    (doc_expires_at doc) (doc_rate_limit doc) (doc_created_by doc)
    (doc_organization_id doc) (doc_total_calls doc + 1) (Some now).

(** The documents of [api_keys] after a call of the key [api_key_id] was
    counted at [now]. *)
Definition count_call (api_key_id : string) (now : datetime) (docs : list document)
  : list document :=
  map (fun doc => if String.eqb (doc_id doc) api_key_id then counted_call now doc else doc) docs.

Definition has_key (api_key_id : string) (d : firestore) : bool :=
  existsb (fun doc => String.eqb (doc_id doc) api_key_id) (api_keys d).

(** The [total_calls] of the first document with the id [api_key_id]. *)
Definition total_calls_of (api_key_id : string) (d : firestore) : option Z :=
  doc_total_calls <$> List.find (fun doc => String.eqb (doc_id doc) api_key_id) (api_keys d).

(** The entry that [track_usage] appends to the usage log. *)
Definition usage_log_of (api_key_id : string) (usage : usage_data) (timestamp : datetime)
  : usage_log :=
  {| ul_api_key_id := api_key_id;
     ul_agent_id := ud_agent_id usage;
     ul_request_path := ud_request_path usage;
     ul_method := ud_method usage;
     ul_timestamp := timestamp;
     ul_response_status := ud_response_status usage;
     ul_tokens_used := default 0 (ud_tokens_used usage);
     ul_cost_usd := default 0%Q (ud_cost_usd usage);
     ul_user_id := ud_user_id usage;
     ul_organization_id := ud_organization_id usage |}.

(** The UTC date that the clock of [w] reads next. *)
Definition utc_date (w : world) : datetime := {| wall := utc_now w; tzinfo := Some 0 |}.

(** [usage] bears a cost: [usage_data.get('cost_usd', 0) > 0]. *)
Definition bears_cost (usage : usage_data) : bool :=
  negb (Qle_bool (default 0%Q (ud_cost_usd usage)) 0).

(** Successive calls of [track_usage] for one key, as the event loop runs
    the tasks of its requests. *)
Fixpoint track_usages (api_key_id : string) (usages : list usage_data) : M unit :=
  match usages with
  | [] => ret tt
  | usage :: rest => track_usage api_key_id usage ;; track_usages api_key_id rest
  end.

(* ===================================================================== *)
(** ** The tester of [test_api_keys.py] *)
(* ===================================================================== *)

Module Tester.





(** [a or b] on optional strings. *)
Definition or_else (a b : option string) : option string :=
  match a with
  | Some s => if Py.truthy s then a else b
  | None => b
  end.

(** [APIKeyTester._create_auth_header(api_key)]; [self_api_key] is
    [self.api_key].  The dict is the list of its items. *)
Definition _create_auth_header (self_api_key api_key : option string)
  : list (string * string) :=
  let key := or_else api_key self_api_key in
  match key with
  | Some key => if negb (Py.truthy key) then []
                else [("Authorization"%string, "Bearer " +:+ key)]
  | None => []
  end.

End Tester.

(** The request that the server sees for the headers [hs]. *)
Definition request_with (hs : list (string * string)) (path verb : string) : Request :=
  {| authorization := header_get "Authorization" hs;
     url_path := path; method := verb;
     state := {| api_key_id := None; api_key_user_id := None;
                 organization_id := None; auth_method := None |} |}.


(** The summaries after [_update_agent_billing_summary] counted one call
    at [now]: an existing summary grows, a missing one is created. *)
Definition billed (agent_id : string) (tokens : Z) (cost : Q) (now : datetime)
           (summaries : gmap string summary) : gmap string summary :=
  match summaries !! agent_id with
  | Some s =>
      <[agent_id := mk_summary (agentId s) (totalMessages s + 1) (totalTokens s + tokens)
                      (increment_double (totalCost s) cost) (apiKeyUsage s + 1) (webUsage s)
                      now (createdAt s) now]> summaries
  | None => <[agent_id := mk_summary agent_id 1 tokens cost 1 0 now now now]> summaries
  end.

(** The world after the clock was read once more. *)
Definition later (w : world) : world := set_reads (S (reads w)) w.

(** The latest record of the log. *)
Definition last_logged (w : world) : option (level * string) := hd_error (logged w).

(** The sum of the tokens that the usages report. *)
Definition tokens_of (usages : list usage_data) : Z :=
  fold_right (fun usage total => default 0 (ud_tokens_used usage) + total) 0 usages.

(* ===================================================================== *)
(** ** Further sample data *)
(* ===================================================================== *)

(** A key whose [expires_at] text names no zone. *)
Definition key_naive : document :=
  {| doc_id := "key4"; doc_agent_id := "agent-1"; doc_status := "active";
     doc_key_hash := Some (sha256_hexdigest "ak_naive");
     doc_expires_at := Some (ExpiresStr "2099-01-01T00:00:00");
     doc_rate_limit := None;
     doc_created_by := None; doc_organization_id := None;
     doc_total_calls := 0; doc_last_used := None |}.

(** The sample validator with [key_naive] as its only key. *)
Definition naive_world : world :=
  set_db {| api_keys := [key_naive]; api_key_usage_logs := []; agent_usage_summary := ∅ |}
         sample_world.

(** The usage of a call that reports 42 tokens and a cost of 0.01. *)
Definition sample_usage : usage_data :=
  {| ud_agent_id := "agent-1"; ud_request_path := "/chat"; ud_method := "POST";
     ud_response_status := 200; ud_processing_time_ms := 12%Q;
     ud_user_id := Some "user-1"%string; ud_organization_id := None;
     ud_tokens_used := Some 42; ud_cost_usd := Some (1 # 100)%Q |}.

(** A handler whose token header is no integer. *)
Definition garbled_handler (request : Request) : M Response :=
  ret {| status_code := 200; headers := [("X-Token-Count", "many")]%string; body := "ok" |}.

(* ===================================================================== *)
(** ** [str] and [int] on integers *)
(* ===================================================================== *)

Lemma digit_cases (d : Z) :
  is_digit_value d -> d = 0 \/ d = 1 \/ d = 2 \/ d = 3 \/ d = 4 \/ d = 5 \/ d = 6 \/ d = 7 \/ d = 8 \/ d = 9.
Proof. unfold is_digit_value. lia. Qed.

Ltac each_digit H :=
  apply digit_cases in H;
  repeat (destruct H as [H | H]); subst.

Lemma isdigit_digit_char d : is_digit_value d -> Py.isdigit (Py.digit_char d) = true.
Proof. intros H. each_digit H; reflexivity. Qed.

Lemma ord_digit_char d : is_digit_value d -> Py.ord (Py.digit_char d) - 48 = d.
Proof. intros H. each_digit H; reflexivity. Qed.

Lemma isspace_digit_char d : is_digit_value d -> Py.isspace (Py.digit_char d) = false.
Proof. intros H. each_digit H; reflexivity. Qed.

Lemma colon_digit_char d : is_digit_value d -> Ascii.eqb (Py.digit_char d) ":" = false.
Proof. intros H. each_digit H; reflexivity. Qed.

Lemma digits_step fuel n acc :
  Py.digits (S fuel) n acc =
  if n <? 10 then String (Py.digit_char (n mod 10)) acc
  else Py.digits fuel (n / 10) (String (Py.digit_char (n mod 10)) acc).
Proof. reflexivity. Qed.

Lemma digits_spec fuel : forall n acc,
  0 <= n < 2 ^ Z.of_nat (S fuel) ->
  exists ds, ds <> [] /\ Forall is_digit_value ds /\ value_of ds 0 = n /\
             list_ascii_of_string (Py.digits (S fuel) n acc)
             = map Py.digit_char ds ++ list_ascii_of_string acc.
Proof.
  induction fuel as [|fuel IH]; intros n acc Hn.
  - exists [n]. change (2 ^ Z.of_nat 1) with 2 in Hn.
    assert (Hlt : (n <? 10) = true) by (apply Z.ltb_lt; lia).
    rewrite digits_step, Hlt. rewrite Z.mod_small by lia.
    split; [discriminate |]. split; [repeat constructor; unfold is_digit_value; lia |].
    split; reflexivity.
  - rewrite digits_step. destruct (n <? 10) eqn:Hlt.
    + apply Z.ltb_lt in Hlt. exists [n]. rewrite Z.mod_small by lia.
      split; [discriminate |]. split; [repeat constructor; unfold is_digit_value; lia |].
      split; reflexivity.
    + apply Z.ltb_ge in Hlt.
      destruct (IH (n / 10) (String (Py.digit_char (n mod 10)) acc)) as (ds & Hne & Hds & Hval & Hstr).
      { split; [apply Z.div_pos; lia |].
        apply Z.div_lt_upper_bound; [lia |].
        rewrite (Nat2Z.inj_succ (S fuel)), Z.pow_succ_r in Hn by lia. lia. }
      exists (ds ++ [n mod 10]). split; [| split; [| split]].
      * destruct ds; discriminate.
      * apply Forall_app. split; [exact Hds |].
        repeat constructor; unfold is_digit_value; pose proof (Z.mod_pos_bound n 10); lia.
      * unfold value_of in *. rewrite fold_left_app. cbn [fold_left]. rewrite Hval.
        pose proof (Z.div_mod n 10). lia.
      * rewrite Hstr. rewrite map_app, <- app_assoc. reflexivity.
Qed.

Lemma str_of_nat_spec n :
  0 <= n ->
  exists ds, ds <> [] /\ Forall is_digit_value ds /\ value_of ds 0 = n /\
             list_ascii_of_string (Py.str_of_nat n) = map Py.digit_char ds.
Proof.
  intros Hn. unfold Py.str_of_nat.
  destruct (digits_spec (Z.to_nat (Z.log2 n)) n EmptyString) as (ds & H1 & H2 & H3 & H4).
  { split; [lia |]. rewrite Nat2Z.inj_succ, Z2Nat.id by apply Z.log2_nonneg.
    destruct (Z.eq_dec n 0) as [-> | Hne]; [reflexivity |].
    apply Z.log2_spec. lia. }
  exists ds. rewrite H4, app_nil_r. auto.
Qed.

Lemma int_digits_digit_chars ds : forall b acc,
  ds <> [] -> Forall is_digit_value ds ->
  Py.int_digits b acc (map Py.digit_char ds) = Some (value_of ds acc).
Proof.
  induction ds as [|d ds IH]; intros b acc Hne Hds; [congruence |].
  inversion Hds as [|? ? Hd Hds']; subst.
  cbn [map Py.int_digits]. rewrite isdigit_digit_char, ord_digit_char by assumption.
  destruct ds as [|d' ds'].
  - reflexivity.
  - rewrite IH by (auto; discriminate). reflexivity.
Qed.

Lemma lstrip_head c l : Py.isspace c = false -> Py.lstrip (c :: l) = c :: l.
Proof. intros H. cbn. rewrite H. reflexivity. Qed.

Lemma strip_digit_chars (pre : list ascii) ds :
  ds <> [] -> Forall is_digit_value ds ->
  match pre with c :: _ => Py.isspace c = false | [] => True end ->
  Py.strip (pre ++ map Py.digit_char ds) = pre ++ map Py.digit_char ds.
Proof.
  intros Hne Hds Hpre. unfold Py.strip.
  assert (H1 : Py.lstrip (pre ++ map Py.digit_char ds) = pre ++ map Py.digit_char ds).
  { destruct pre as [|c pre]; cbn [app].
    - destruct ds as [|d ds]; [congruence |]. inversion Hds; subst.
      apply lstrip_head, isspace_digit_char; assumption.
    - apply lstrip_head; assumption. }
  rewrite H1.
  destruct (exists_last Hne) as (ds' & d & ->).
  apply Forall_app in Hds as [_ Hd]. inversion Hd; subst.
  rewrite map_app, app_assoc. cbn [map]. rewrite rev_app_distr. cbn [rev app].
  rewrite lstrip_head by (apply isspace_digit_char; assumption).
  change (Py.digit_char d :: rev (pre ++ map Py.digit_char ds'))
    with (rev [Py.digit_char d] ++ rev (pre ++ map Py.digit_char ds')).
  rewrite <- rev_app_distr, rev_involutive. reflexivity.
Qed.

Lemma int_unsigned_digit_chars ds :
  ds <> [] -> Forall is_digit_value ds ->
  Py.int_unsigned (map Py.digit_char ds) = Some (value_of ds 0).
Proof.
  intros Hne Hds. unfold Py.int_unsigned.
  destruct ds as [|d ds]; [congruence |].
  pose proof Hds as Hds'. inversion Hds'; subst.
  cbn [map]. rewrite isdigit_digit_char by assumption.
  apply (int_digits_digit_chars (d :: ds)); auto.
Qed.

Lemma int_str n : Py.int (Py.str n) = Some n.
Proof.
  unfold Py.int, Py.str. destruct (n <? 0) eqn:Hneg.
  - apply Z.ltb_lt in Hneg.
    destruct (str_of_nat_spec (- n)) as (ds & H1 & H2 & H3 & H4); [lia |].
    cbn [list_ascii_of_string]. rewrite H4.
    pose proof (strip_digit_chars ["-"%char] ds H1 H2 eq_refl) as Hs.
    cbn [app] in Hs. rewrite Hs.
    rewrite int_unsigned_digit_chars by auto.
    cbn. f_equal. lia.
  - apply Z.ltb_ge in Hneg.
    destruct (str_of_nat_spec n) as (ds & H1 & H2 & H3 & H4); [lia |].
    rewrite H4.
    pose proof (strip_digit_chars [] ds H1 H2 I) as Hs.
    cbn [app] in Hs. rewrite Hs.
    rewrite <- H3. rewrite <- (int_unsigned_digit_chars ds) by auto.
    destruct ds as [|d ds]; [congruence |]. inversion H2 as [|? ? Hd ?]; subst.
    cbn [map]. each_digit Hd; reflexivity.
Qed.

(* ===================================================================== *)
(** ** The keys of the cache *)
(* ===================================================================== *)

Lemma split_colon_free s : colon_free s = true -> Py.split ":" s = [s].
Proof.
  induction s as [|c s IH]; intros H; [reflexivity |].
  cbn [colon_free] in H. apply andb_prop in H as [Hc Hs].
  apply negb_true_iff in Hc. cbn [Py.split]. rewrite Hc, (IH Hs). reflexivity.
Qed.

Lemma split_prefix id s :
  colon_free id = true -> Py.split ":" (id +:+ String ":" s) = id :: Py.split ":" s.
Proof.
  induction id as [|c id IH]; intros H; [reflexivity |].
  cbn [colon_free] in H. apply andb_prop in H as [Hc Hs].
  apply negb_true_iff in Hc.
  change (String c id +:+ String ":" s) with (String c (id +:+ String ":" s)).
  cbn [Py.split]. rewrite Hc, (IH Hs). reflexivity.
Qed.

Lemma colon_free_chars s :
  colon_free s = forallb (fun c => negb (Ascii.eqb c ":")) (list_ascii_of_string s).
Proof. induction s as [|c s IH]; [reflexivity |]. cbn. rewrite IH. reflexivity. Qed.

Lemma colon_free_digit_chars ds :
  Forall is_digit_value ds ->
  forallb (fun c => negb (Ascii.eqb c ":")) (map Py.digit_char ds) = true.
Proof.
  induction 1 as [|d ds Hd _ IH]; [reflexivity |].
  cbn. rewrite colon_digit_char by assumption. exact IH.
Qed.

Lemma colon_free_str n : colon_free (Py.str n) = true.
Proof.
  rewrite colon_free_chars. unfold Py.str. destruct (n <? 0) eqn:Hneg.
  - apply Z.ltb_lt in Hneg.
    destruct (str_of_nat_spec (- n)) as (ds & _ & H2 & _ & H4); [lia |].
    cbn [list_ascii_of_string]. rewrite H4. cbn [forallb].
    rewrite colon_free_digit_chars by assumption. reflexivity.
  - apply Z.ltb_ge in Hneg.
    destruct (str_of_nat_spec n) as (ds & _ & H2 & _ & H4); [lia |].
    rewrite H4. apply colon_free_digit_chars; assumption.
Qed.

Lemma split_cache_key id m :
  colon_free id = true -> Py.split ":" (cache_key_of id m) = [id; Py.str m].
Proof.
  intros H. unfold cache_key_of.
  change (id +:+ ":" +:+ Py.str m) with (id +:+ String ":" (Py.str m)).
  rewrite split_prefix by assumption.
  rewrite split_colon_free by apply colon_free_str. reflexivity.
Qed.

Lemma cache_minute_of_cache_key id m :
  colon_free id = true -> cache_minute_of (cache_key_of id m) = Ok m.
Proof.
  intros H. unfold cache_minute_of. rewrite split_cache_key by assumption.
  cbn. rewrite int_str. reflexivity.
Qed.

Lemma cache_key_inj id id' m m' :
  colon_free id = true -> colon_free id' = true ->
  cache_key_of id m = cache_key_of id' m' -> id = id' /\ m = m'.
Proof.
  intros H H' Heq.
  pose proof (split_cache_key id m H) as E. rewrite Heq, split_cache_key in E by assumption.
  inversion E as [[Hid Hstr]]. split; [reflexivity |].
  pose proof (int_str m) as I. rewrite <- Hstr, int_str in I. congruence.
Qed.

(* ===================================================================== *)
(** ** The cleaning loop of [check_rate_limit] *)
(* ===================================================================== *)

Lemma keys_to_remove_of_Ok mw ks :
  Forall readable_key ks ->
  keys_to_remove_of mw ks = Ok (List.filter (fun k => negb (fresh_key mw k)) ks).
Proof.
  induction 1 as [|k ks [cm Hk] _ IH]; [reflexivity |].
  cbn [keys_to_remove_of List.filter]. unfold fresh_key at 1. rewrite Hk, IH.
  rewrite negb_involutive. reflexivity.
Qed.


Lemma readable_keys (cache : gmap string Z) :
  readable cache <-> Forall readable_key (map fst (map_to_list cache)).
Proof.
  unfold readable. rewrite List.Forall_forall. split.
  - intros H k Hin. apply in_map_iff in Hin as ([k' v] & <- & Hin).
    apply list_elem_of_In, elem_of_map_to_list in Hin. eapply H; exact Hin.
  - intros H k v Hk. apply H. apply in_map_iff. exists (k, v). split; [reflexivity |].
    apply list_elem_of_In, elem_of_map_to_list. exact Hk.
Qed.

Lemma foldr_delete_stale mw (cache : gmap string Z) :
  foldr delete cache (List.filter (fun k => negb (fresh_key mw k)) (map fst (map_to_list cache)))
  = filter (fun kv => fresh_key mw kv.1 = true) cache.
Proof.
  apply map_eq. intros k.
  destruct (fresh_key mw k) eqn:Hf.
  - rewrite lookup_foldr_delete_not_elem_of.
    + destruct (cache !! k) as [v|] eqn:Hk.
      * symmetry. apply map_lookup_filter_Some. split; [exact Hk | exact Hf].
      * symmetry. apply map_lookup_filter_None. left. exact Hk.
    + intros Hin. apply list_elem_of_In, filter_In in Hin as [_ Hin].
      rewrite Hf in Hin. discriminate.
  - destruct (cache !! k) as [v|] eqn:Hk.
    + rewrite lookup_foldr_delete.
      * symmetry. apply map_lookup_filter_None. right. intros x _. cbn. rewrite Hf. discriminate.
      * apply list_elem_of_In, filter_In. split; [| rewrite Hf; reflexivity].
        apply in_map_iff. exists (k, v). split; [reflexivity |].
        apply list_elem_of_In, elem_of_map_to_list. exact Hk.
    + rewrite lookup_foldr_delete_not_elem_of.
      * rewrite Hk. symmetry. apply map_lookup_filter_None. left. exact Hk.
      * intros Hin. apply list_elem_of_In, filter_In in Hin as [Hin _].
        apply in_map_iff in Hin as ([k' v] & Hfst & Hin). cbn in Hfst. subst k'.
        apply list_elem_of_In, elem_of_map_to_list in Hin. congruence.
Qed.

(* ===================================================================== *)
(** ** One call of [check_rate_limit] *)
(* ===================================================================== *)

Lemma check_rate_limit_unfold id L w :
  let m := minute_of (clock w (reads w)) in
  let key := cache_key_of id m in
  let w1 := set_reads (S (reads w)) w in
  let c := rate_limit_cache w in
  let n := count_of c key in
  check_rate_limit id L w =
    if L <=? n then
      (Ok false, set_cache (match c !! key with None => <[key := 0]> c | Some _ => c end) w1)
    else
      match keys_to_remove_of m (map fst (map_to_list (<[key := n + 1]> c))) with
      | Ok ks => (Ok true, set_cache (foldr delete (<[key := n + 1]> c) ks) w1)
      | Raise e => (Raise e, set_cache (<[key := n + 1]> c) w1)
      end.
Proof.
  intros m key w1 c n. subst n. unfold count_of.
  unfold check_rate_limit, bind, time_time, get_cache, put_cache, ret, lift.
  fold m. fold key.
  change (rate_limit_cache (set_reads (S (reads w)) w)) with c.
  destruct (c !! key) as [v|] eqn:Hk.
  - change (rate_limit_cache (set_reads (S (reads w)) w)) with c.
    rewrite Hk. change (default 0 (Some v)) with v.
    destruct (L <=? v); [reflexivity |].
    change (rate_limit_cache (set_cache ?x _)) with x.
    destruct (keys_to_remove_of m _); reflexivity.
  - change (rate_limit_cache (set_cache (<[key:=0]> c) (set_reads (S (reads w)) w)))
      with (<[key:=0]> c).
    rewrite lookup_insert_eq. change (default 0 (Some 0)) with 0. change (default 0 None) with 0.
    destruct (L <=? 0); [reflexivity |].
    rewrite insert_insert_eq.
    destruct (keys_to_remove_of m _); reflexivity.
Qed.

(* ===================================================================== *)
(** ** [_secure_compare] *)
(* ===================================================================== *)

Lemma ord_inj x y : Py.ord x = Py.ord y -> x = y.
Proof.
  unfold Py.ord. intros H. apply N2Z.inj in H.
  rewrite <- (ascii_N_embedding x), <- (ascii_N_embedding y), H. reflexivity.
Qed.

Lemma xor_fold_zero (l : list (ascii * ascii)) : forall acc,
  fold_left (fun result xy => Z.lor result (Z.lxor (Py.ord (fst xy)) (Py.ord (snd xy)))) l acc = 0
  <-> acc = 0 /\ Forall (fun xy => fst xy = snd xy) l.
Proof.
  induction l as [|[x y] l IH]; intros acc; cbn [fold_left].
  - split; [intros ->; split; [reflexivity | constructor] | intros [-> _]; reflexivity].
  - rewrite IH, Z.lor_eq_0_iff. cbn [fst snd]. split.
    + intros [[Hacc Hxor] Hl]. split; [exact Hacc |].
      constructor; [apply ord_inj, Z.lxor_eq, Hxor | exact Hl].
    + intros [Hacc Hl]. inversion Hl as [|? ? Hxy Hl']; subst. cbn [fst snd] in Hxy. subst y.
      split; [split; [reflexivity | apply Z.lxor_nilpotent] | exact Hl'].
Qed.

Lemma zip_all_equal a : forall b,
  String.length a = String.length b ->
  Forall (fun xy => fst xy = snd xy) (Py.zip a b) -> a = b.
Proof.
  induction a as [|x a IH]; intros [|y b] Hlen Hall; try discriminate; [reflexivity |].
  cbn [Py.zip] in Hall. inversion Hall as [|? ? Hxy Hall']; subst. cbn [fst snd] in Hxy. subst y.
  f_equal. apply IH; [cbn in Hlen; congruence | exact Hall'].
Qed.

Lemma zip_diag a : Forall (fun xy => fst xy = snd xy) (Py.zip a a).
Proof. induction a as [|x a IH]; cbn [Py.zip]; constructor; [reflexivity | exact IH]. Qed.

Lemma zip_length a : forall b,
  List.length (Py.zip a b) = Nat.min (String.length a) (String.length b).
Proof.
  induction a as [|x a IH]; intros [|y b]; cbn [Py.zip String.length List.length Nat.min];
    try reflexivity.
  rewrite IH. reflexivity.
Qed.

Lemma secure_compare_eq a b : _secure_compare a b = true <-> a = b.
Proof.
  unfold _secure_compare.
  destruct (String.length a =? String.length b)%nat eqn:Hlen; cbn [negb].
  - apply Nat.eqb_eq in Hlen. rewrite Z.eqb_eq, xor_fold_zero. split.
    + intros [_ Hall]. apply zip_all_equal; assumption.
    + intros ->. split; [reflexivity | apply zip_diag].
  - apply Nat.eqb_neq in Hlen. split; [discriminate | intros ->; congruence].
Qed.

(** C2.  [_secure_compare a b] is [True] exactly when [a] equals [b]: it
    is [False] as soon as the lengths differ, and for equal lengths it is the
    test that the bitwise OR, over every position of the strings, of the XOR
    of the two characters is zero; that aggregate is zero exactly when the
    strings agree at every position. *)
Theorem secure_compare_correct (a b : string) :
  let aggregate :=
    fold_left (fun result xy => Z.lor result (Z.lxor (Py.ord (fst xy)) (Py.ord (snd xy))))
              (Py.zip a b) 0 in
  (_secure_compare a b = true <-> a = b) /\
  _secure_compare a b = (String.length a =? String.length b)%nat && (aggregate =? 0) /\
  List.length (Py.zip a b) = Nat.min (String.length a) (String.length b) /\
  (aggregate = 0 <-> Forall (fun xy => fst xy = snd xy) (Py.zip a b)).
Proof.
  intros aggregate. split; [apply secure_compare_eq |]. split; [| split].
  - unfold _secure_compare. fold aggregate.
    destruct (String.length a =? String.length b)%nat; reflexivity.
  - apply zip_length.
  - subst aggregate. rewrite xor_fold_zero. tauto.
Qed.

(* ===================================================================== *)
(** ** The digest is 64 characters long *)
(* ===================================================================== *)

Lemma round_length st kw : List.length st = 8%nat -> List.length (hashlib.round st kw) = 8%nat.
Proof.
  intros H. do 9 (destruct st as [|? st]; try discriminate). reflexivity.
Qed.

Lemma fold_round_length kws : forall st,
  List.length st = 8%nat -> List.length (fold_left hashlib.round kws st) = 8%nat.
Proof.
  induction kws as [|kw kws IH]; intros st H; [exact H |].
  cbn [fold_left]. apply IH, round_length, H.
Qed.

Lemma compress_length h block :
  List.length h = 8%nat -> List.length (hashlib.compress h block) = 8%nat.
Proof.
  intros H. unfold hashlib.compress.
  rewrite length_map, length_combine, fold_round_length, H by exact H. reflexivity.
Qed.

Lemma blocks_length n : forall h bs,
  List.length h = 8%nat -> List.length (hashlib.blocks n h bs) = 8%nat.
Proof.
  induction n as [|n IH]; intros h bs H; [exact H |].
  cbn [hashlib.blocks]. apply IH, compress_length, H.
Qed.

Lemma hexdigest_length bs : String.length (hashlib.hexdigest bs) = (2 * List.length bs)%nat.
Proof. induction bs as [|b bs IH]; [reflexivity |]. cbn [hashlib.hexdigest String.length List.length]. lia. Qed.

Lemma concat_be_bytes_length ws :
  List.length (concat (map (hashlib.be_bytes 4) ws)) = (4 * List.length ws)%nat.
Proof.
  induction ws as [|x ws IH]; [reflexivity |].
  cbn [map concat]. rewrite length_app, IH. cbn [List.length]. unfold hashlib.be_bytes.
  rewrite length_map, length_rev, length_seq. lia.
Qed.

Lemma sha256_hexdigest_length api_key : String.length (sha256_hexdigest api_key) = 64%nat.
Proof.
  unfold sha256_hexdigest, hashlib.sha256.
  rewrite hexdigest_length, concat_be_bytes_length, blocks_length by reflexivity.
  reflexivity.
Qed.

Lemma sha256_hexdigest_truthy api_key : Py.truthy (sha256_hexdigest api_key) = true.
Proof.
  pose proof (sha256_hexdigest_length api_key) as H.
  destruct (sha256_hexdigest api_key); [discriminate | reflexivity].
Qed.

(* ===================================================================== *)
(** ** [validate_api_key] *)
(* ===================================================================== *)

Lemma stream_active_keys_answered agent_id w :
  store_answers w = true ->
  exists w0, stream_active_keys agent_id w = (Ok (active_keys agent_id w), w0) /\
             clock w0 = clock w /\ reads w0 = reads w.
Proof.
  unfold store_answers, stream_active_keys, active_keys, bind, store_request, get_db, ret.
  intros H. destruct (outages w) as [|[|] rest]; [| discriminate |].
  - exists w. auto.
  - exists (set_outages rest w). auto.
Qed.

Lemma stream_active_keys_unanswered agent_id w rest :
  outages w = true :: rest ->
  stream_active_keys agent_id w = (Raise GoogleAPICallError, set_outages rest w).
Proof.
  intros H. unfold stream_active_keys, bind, store_request. rewrite H. reflexivity.
Qed.

Section Validate.

Variable fromisoformat : string -> option datetime.

Lemma validate_loop_skip key_hash agent_id before rest w :
  Forall (fun d => doc_key_hash d <> Some key_hash) before ->
  validate_loop fromisoformat key_hash agent_id (before ++ rest) w
  = validate_loop fromisoformat key_hash agent_id rest w.
Proof.
  induction 1 as [|d before Hd _ IH]; [reflexivity |].
  cbn [app validate_loop].
  destruct (doc_key_hash d) as [stored_hash|]; [| exact IH].
  destruct (Py.truthy stored_hash && _secure_compare key_hash stored_hash) eqn:Hcmp;
    [| exact IH].
  apply andb_prop in Hcmp as [_ Hcmp]. apply secure_compare_eq in Hcmp. congruence.
Qed.

Lemma validate_loop_match key_hash agent_id d rest w :
  doc_key_hash d = Some key_hash -> Py.truthy key_hash = true ->
  validate_loop fromisoformat key_hash agent_id (d :: rest) w
  = (expired <- has_expired fromisoformat d ;;
     if (expired : bool) then
       log WARNING ("Expired API key for agent " +:+ agent_id) ;; ret None
     else
       log INFO ("Valid API key authenticated for agent " +:+ agent_id) ;; ret (Some d)) w.
Proof.
  intros Hd Ht. cbn [validate_loop]. rewrite Hd, Ht.
  assert (Hc : _secure_compare key_hash key_hash = true) by (apply secure_compare_eq; reflexivity).
  rewrite Hc. reflexivity.
Qed.

Lemma has_expired_not_expired d w :
  not_expired fromisoformat (utc_now w) d = true ->
  exists w', has_expired fromisoformat d w = (Ok false, w').
Proof.
  unfold not_expired, has_expired. destruct (doc_expires_at d) as [v|]; [| eexists; reflexivity].
  destruct (expires_truthy v); cbn [negb orb]; [| eexists; reflexivity].
  intros H. destruct v as [s|t]; cbn [expiry_instant] in H.
  - destruct (fromisoformat (Py.replace "Z" "+00:00" s)) as [[wl [offset|]]|]; try discriminate.
    cbn [wall tzinfo] in H. apply Z.leb_le in H.
    unfold bind, ret, datetime_now_utc, time_time, lift, datetime_gt. cbn [wall tzinfo].
    eexists. f_equal. f_equal. apply Z.ltb_ge. unfold utc_now in H. cbn [wall]. lia.
  - cbn [wall] in H. apply Z.leb_le in H.
    unfold bind, ret, datetime_now_utc, time_time, lift, datetime_gt, replace_tzinfo_utc.
    cbn [wall tzinfo].
    eexists. f_equal. f_equal. apply Z.ltb_ge. unfold utc_now in H. cbn [wall]. lia.
Qed.

Lemma has_expired_in_past d w :
  expires_in_past fromisoformat (utc_now w) d = true ->
  exists w', has_expired fromisoformat d w = (Ok true, w').
Proof.
  unfold expires_in_past, has_expired. destruct (doc_expires_at d) as [v|]; [| discriminate].
  destruct (expires_truthy v); cbn [andb]; [| discriminate].
  intros H. destruct v as [s|t]; cbn [expiry_instant] in H.
  - destruct (fromisoformat (Py.replace "Z" "+00:00" s)) as [[wl [offset|]]|]; try discriminate.
    cbn [wall tzinfo] in H. apply Z.ltb_lt in H.
    unfold bind, ret, datetime_now_utc, time_time, lift, datetime_gt. cbn [wall tzinfo].
    eexists. f_equal. f_equal. apply Z.ltb_lt. unfold utc_now in H. cbn [wall]. lia.
  - cbn [wall] in H. apply Z.ltb_lt in H.
    unfold bind, ret, datetime_now_utc, time_time, lift, datetime_gt, replace_tzinfo_utc.
    cbn [wall tzinfo].
    eexists. f_equal. f_equal. apply Z.ltb_lt. unfold utc_now in H. cbn [wall]. lia.
Qed.

Lemma has_expired_unreadable d w s :
  doc_expires_at d = Some (ExpiresStr s) ->
  Py.truthy s = true ->
  expiry_instant fromisoformat (ExpiresStr s) = None ->
  exists e w', has_expired fromisoformat d w = (Raise e, w').
Proof.
  intros Hd Hs Hi. unfold has_expired. rewrite Hd. cbn [expires_truthy]. rewrite Hs.
  cbn [expiry_instant] in Hi.
  destruct (fromisoformat (Py.replace "Z" "+00:00" s)) as [[wl [offset|]]|];
    cbn [wall tzinfo] in Hi; try discriminate.
  - exists TypeError. eexists. reflexivity.
  - exists ValueError. eexists. reflexivity.
Qed.

(** X3.  An [expires_at] text that does not parse, or that parses to a date
    without a zone, makes the comparison raise: the key is refused, whatever
    the date. *)
Lemma validate_api_key_unreadable_expiry api_key agent_id w before d after s :
  store_answers w = true ->
  active_keys agent_id w = before ++ d :: after ->
  Forall (fun d' => doc_key_hash d' <> Some (sha256_hexdigest api_key)) before ->
  doc_key_hash d = Some (sha256_hexdigest api_key) ->
  doc_expires_at d = Some (ExpiresStr s) ->
  Py.truthy s = true ->
  expiry_instant fromisoformat (ExpiresStr s) = None ->
  fst (validate_api_key fromisoformat api_key agent_id w) = Ok None.
Proof.
  intros Hstore Hquery Hbefore Hd Hexp Hs Hi.
  destruct (stream_active_keys_answered agent_id w Hstore) as (w0 & Hstream & _).
  destruct (has_expired_unreadable d w0 s Hexp Hs Hi) as (e & w' & Hw').
  unfold validate_api_key, try_except, bind at 1. rewrite Hstream, Hquery.
  rewrite validate_loop_skip by exact Hbefore.
  rewrite validate_loop_match by (try exact Hd; apply sha256_hexdigest_truthy).
  unfold bind at 1. rewrite Hw'. reflexivity.
Qed.

(** C1.  Let the store answer the query, and let [d] be the first
    document for this agent with status active whose [key_hash] is the
    SHA-256 hex digest of the presented key (the only one, when hashes are
    unique).  If [d] has not expired, [validate_api_key] returns [d]; if
    its [expires_at] is set and lies before the current UTC time,
    [validate_api_key] returns [None] although the hash matches. *)
Theorem validate_api_key_correct api_key agent_id w before d after :
  store_answers w = true ->
  active_keys agent_id w = before ++ d :: after ->
  Forall (fun d' => doc_key_hash d' <> Some (sha256_hexdigest api_key)) before ->
  doc_key_hash d = Some (sha256_hexdigest api_key) ->
  (not_expired fromisoformat (utc_now w) d = true ->
     fst (validate_api_key fromisoformat api_key agent_id w) = Ok (Some d)) /\
  (expires_in_past fromisoformat (utc_now w) d = true ->
     fst (validate_api_key fromisoformat api_key agent_id w) = Ok None).
Proof.
  intros Hstore Hquery Hbefore Hd.
  destruct (stream_active_keys_answered agent_id w Hstore) as (w0 & Hstream & Hclock & Hreads).
  assert (Hnow : utc_now w0 = utc_now w) by (unfold utc_now; rewrite Hclock, Hreads; reflexivity).
  assert (Hloop :
    validate_loop fromisoformat (sha256_hexdigest api_key) agent_id (active_keys agent_id w) w0
    = (expired <- has_expired fromisoformat d ;;
       if (expired : bool) then
         log WARNING ("Expired API key for agent " +:+ agent_id) ;; ret None
       else
         log INFO ("Valid API key authenticated for agent " +:+ agent_id) ;; ret (Some d)) w0).
  { rewrite Hquery, validate_loop_skip by exact Hbefore.
    apply validate_loop_match; [exact Hd | apply sha256_hexdigest_truthy]. }
  split; intros Hexp; rewrite <- Hnow in Hexp.
  - destruct (has_expired_not_expired d w0 Hexp) as (w' & Hw').
    unfold validate_api_key, try_except, bind at 1. rewrite Hstream, Hloop.
    unfold bind at 1. rewrite Hw'. reflexivity.
  - destruct (has_expired_in_past d w0 Hexp) as (w' & Hw').
    unfold validate_api_key, try_except, bind at 1. rewrite Hstream, Hloop.
    unfold bind at 1. rewrite Hw'. reflexivity.
Qed.

End Validate.

(* ===================================================================== *)
(** ** The monad *)
(* ===================================================================== *)

Lemma bind_Ok {A B} (m : M A) (k : A -> M B) w a w' :
  m w = (Ok a, w') -> (x <- m ;; k x) w = k a w'.
Proof. intros H. unfold bind. rewrite H. reflexivity. Qed.

Lemma bind_Raise {A B} (m : M A) (k : A -> M B) w e w' :
  m w = (Raise e, w') -> (x <- m ;; k x) w = (Raise e, w').
Proof. intros H. unfold bind. rewrite H. reflexivity. Qed.

Lemma try_except_Ok {A} (body : M A) handler w a w' :
  body w = (Ok a, w') -> try_except body handler w = (Ok a, w').
Proof. intros H. unfold try_except. rewrite H. reflexivity. Qed.

Lemma try_except_Raise {A} (body : M A) handler w e w' :
  body w = (Raise e, w') -> try_except body handler w = handler e w'.
Proof. intros H. unfold try_except. rewrite H. reflexivity. Qed.

(** A handler that returns makes the whole [try] return. *)
Lemma try_except_returns {A} (body : M A) handler w :
  (forall e w', exists a w'', handler e w' = (Ok a, w'')) ->
  exists a w', try_except body handler w = (Ok a, w').
Proof.
  intros H. unfold try_except. destruct (body w) as [[a|e] w'].
  - exists a, w'. reflexivity.
  - apply H.
Qed.

(* ===================================================================== *)
(** ** A failing store *)
(* ===================================================================== *)

Section Middleware.

Variable fromisoformat : string -> option datetime.
Variable float : string -> option Q.

Lemma validate_api_key_unanswered api_key agent_id w rest :
  outages w = true :: rest ->
  validate_api_key fromisoformat api_key agent_id w
  = (Ok None,
     set_logged ((ERROR, "Error validating API key: " +:+ exn_str GoogleAPICallError)
                 :: logged w) (set_outages rest w)).
Proof.
  intros H. unfold validate_api_key.
  erewrite try_except_Raise
    by (apply bind_Raise, stream_active_keys_unanswered, H).
  reflexivity.
Qed.

Lemma validate_api_key_returns api_key agent_id w :
  exists key_doc w', validate_api_key fromisoformat api_key agent_id w = (Ok key_doc, w').
Proof.
  unfold validate_api_key. apply try_except_returns.
  intros e w'. eexists _, _. reflexivity.
Qed.

Lemma call_with_api_key agent_id request call_next auth_header w :
  authorization request = Some auth_header ->
  Py.truthy auth_header && Py.startswith auth_header "Bearer ak_" = true ->
  __call__ fromisoformat float agent_id request call_next w
  = try_except
      (authenticated fromisoformat float agent_id (Py.slice_from 7 auth_header)
                     (clock w (reads w)) request call_next)
      (fun e =>
         log ERROR ("API key validation error: " +:+ exn_str e) ;;
         ret (JSONResponse 500 "API key validation failed"))
      (set_reads (S (reads w)) w).
Proof.
  intros Hauth Hprefix. unfold __call__, bind at 1, time_time.
  rewrite Hauth, Hprefix. reflexivity.
Qed.

(** C4, at the code.  When the request to the store fails,
    [validate_api_key] logs the error and returns [None], the value it
    returns for a key that matches no document, and the middleware answers
    401 with the detail of an invalid key, not 500. *)
Theorem store_failure_answers_401 agent_id request call_next auth_header w rest :
  authorization request = Some auth_header ->
  Py.truthy auth_header && Py.startswith auth_header "Bearer ak_" = true ->
  outages w = true :: rest ->
  fst (validate_api_key fromisoformat (Py.slice_from 7 auth_header) agent_id w) = Ok None /\
  fst (__call__ fromisoformat float agent_id request call_next w)
  = Ok (JSONResponse 401 "Invalid or inactive API key").
Proof.
  intros Hauth Hprefix Hout. split.
  - rewrite (validate_api_key_unanswered _ _ _ _ Hout). reflexivity.
  - rewrite (call_with_api_key _ _ _ _ _ Hauth Hprefix).
    pose proof (validate_api_key_unanswered (Py.slice_from 7 auth_header) agent_id
                  (set_reads (S (reads w)) w) rest Hout) as Hv.
    erewrite try_except_Ok; [reflexivity |].
    unfold authenticated. rewrite (bind_Ok _ _ _ _ _ Hv). reflexivity.
Qed.

(** C6.  A request whose Authorization header is absent, or present
    without the prefix ["Bearer ak_"], is handed to the downstream handler
    as it came, in a world that differs from the initial one by the one
    reading of the clock: no store request was made, the cache, the
    collections, the tasks and the log are untouched, and the request
    state carries no identity that the middleware set. *)
Theorem no_api_key_passes_through agent_id request call_next w :
  (forall auth_header,
      authorization request = Some auth_header ->
      Py.startswith auth_header "Bearer ak_" = false) ->
  let w0 := set_reads (S (reads w)) w in
  __call__ fromisoformat float agent_id request call_next w = call_next request w0 /\
  db w0 = db w /\ outages w0 = outages w /\
  rate_limit_cache w0 = rate_limit_cache w /\
  tasks w0 = tasks w /\ logged w0 = logged w.
Proof.
  intros H w0. split; [| repeat split].
  unfold __call__, bind at 1, time_time. fold w0.
  destruct (authorization request) as [auth_header|]; [| reflexivity].
  rewrite (H auth_header eq_refl), andb_false_r. reflexivity.
Qed.

End Middleware.

(* ===================================================================== *)
(** ** [track_usage] *)
(* ===================================================================== *)

Lemma try_except_unit (body : M unit) handler w :
  (forall e w', exists w'', handler e w' = (Ok tt, w'')) ->
  exists w', try_except body handler w = (Ok tt, w').
Proof.
  intros H. unfold try_except. destruct (body w) as [[[]|e] w'].
  - exists w'. reflexivity.
  - apply H.
Qed.

Lemma update_agent_billing_summary_returns agent_id tokens cost w :
  exists w', _update_agent_billing_summary agent_id tokens cost w = (Ok tt, w').
Proof.
  unfold _update_agent_billing_summary. apply try_except_unit.
  intros e w'. eexists. reflexivity.
Qed.

Lemma track_usage_returns api_key_id usage w :
  exists w', track_usage api_key_id usage w = (Ok tt, w').
Proof.
  unfold track_usage. apply try_except_unit.
  intros e w'. eexists. reflexivity.
Qed.

Lemma run_task_returns w : exists w', run_task w = (Ok tt, w').
Proof.
  unfold run_task. destruct (tasks w) as [|[api_key_id usage] rest].
  - exists w. reflexivity.
  - apply track_usage_returns.
Qed.

(** C8.  [track_usage] never raises, and what it catches it logs.
    [track_usage] and [_update_agent_billing_summary] return for every
    input.  An exception at the update of the counter, and one at the
    append to the usage log, ends [track_usage] with the ERROR record of
    that exception as the latest record of the log.  A store failure at the
    read or at the write of the billing summary ends
    [_update_agent_billing_summary] with its ERROR record, and without such
    a failure it logs nothing.  When both writes succeed, [track_usage]
    runs the billing step where the usage bears a cost and ends with the
    INFO record.  Running the task that the middleware created leaves the
    outcome of the request as it was. *)
Theorem track_usage_never_raises :
  (forall api_key_id usage w, fst (track_usage api_key_id usage w) = Ok tt) /\
  (forall agent_id tokens cost w,
      fst (_update_agent_billing_summary agent_id tokens cost w) = Ok tt) /\
  (forall api_key_id usage w e w',
      update_api_key api_key_id w = (Raise e, w') ->
      track_usage api_key_id usage w
      = (Ok tt,
         set_logged ((ERROR, "Failed to track usage for API key " +:+ api_key_id +:+ ": "
                             +:+ exn_str e) :: logged w') w')) /\
  (forall api_key_id usage w w1 e w2,
      update_api_key api_key_id w = (Ok tt, w1) ->
      add_usage_log (usage_log_of api_key_id usage (utc_date w1)) (later w1) = (Raise e, w2) ->
      track_usage api_key_id usage w
      = (Ok tt,
         set_logged ((ERROR, "Failed to track usage for API key " +:+ api_key_id +:+ ": "
                             +:+ exn_str e) :: logged w2) w2)) /\
  (forall agent_id tokens cost w rest,
      outages w = true :: rest \/ outages w = false :: true :: rest ->
      _update_agent_billing_summary agent_id tokens cost w
      = (Ok tt,
         set_logged ((ERROR, "Failed to update agent billing summary: "
                             +:+ exn_str GoogleAPICallError) :: logged w)
                    (set_outages rest w))) /\
  (forall agent_id tokens cost w,
      nth 0 (outages w) false = false -> nth 1 (outages w) false = false ->
      logged (snd (_update_agent_billing_summary agent_id tokens cost w)) = logged w) /\
  (forall api_key_id usage w w1 w2,
      update_api_key api_key_id w = (Ok tt, w1) ->
      add_usage_log (usage_log_of api_key_id usage (utc_date w1)) (later w1) = (Ok tt, w2) ->
      exists w3,
        (if bears_cost usage then
           _update_agent_billing_summary (ud_agent_id usage)
             (default 0 (ud_tokens_used usage)) (default 0%Q (ud_cost_usd usage))
         else ret tt) w2 = (Ok tt, w3) /\
        track_usage api_key_id usage w
        = (Ok tt,
           set_logged ((INFO, "Usage tracked for API key " +:+ api_key_id) :: logged w3) w3)) /\
  (forall fromisoformat float agent_id request call_next w,
      fst ((response <- __call__ fromisoformat float agent_id request call_next ;;
            run_task ;;
            ret response) w)
      = fst (__call__ fromisoformat float agent_id request call_next w)).
Proof.
  split; [| split; [| split; [| split; [| split; [| split; [| split]]]]]].
  - intros api_key_id usage w.
    destruct (track_usage_returns api_key_id usage w) as (w' & ->). reflexivity.
  - intros agent_id tokens cost w.
    destruct (update_agent_billing_summary_returns agent_id tokens cost w) as (w' & ->).
    reflexivity.
  - intros api_key_id usage w e w' Hupdate. unfold track_usage.
    rewrite (try_except_Raise _ _ _ _ _ (bind_Raise _ _ _ _ _ Hupdate)). reflexivity.
  - intros api_key_id usage w w1 e w2 Hupdate Hadd. unfold track_usage.
    erewrite try_except_Raise; [reflexivity |].
    rewrite (bind_Ok _ _ _ _ _ Hupdate).
    unfold bind at 1, datetime_now_utc, bind at 1, time_time, ret at 1.
    apply bind_Raise. exact Hadd.
  - intros agent_id tokens cost w rest Hout. destruct w as [d c cl r o t l]. cbn in Hout.
    unfold _update_agent_billing_summary.
    destruct Hout as [-> | ->];
      cbv [try_except bind store_request get_db set_outages
           db rate_limit_cache clock reads outages tasks logged]; [reflexivity |].
    destruct (agent_usage_summary d !! agent_id); reflexivity.
  - intros agent_id tokens cost w H0 H1. destruct w as [d c cl r o t l]. cbn in H0, H1.
    unfold _update_agent_billing_summary.
    destruct o as [|[] [|[] o]]; cbn in H0, H1; try discriminate;
      cbv [try_except bind store_request get_db set_outages
           db rate_limit_cache clock reads outages tasks logged];
      destruct (agent_usage_summary d !! agent_id); reflexivity.
  - intros api_key_id usage w w1 w2 Hupdate Hadd.
    set (billing := if bears_cost usage then
                      _update_agent_billing_summary (ud_agent_id usage)
                        (default 0 (ud_tokens_used usage)) (default 0%Q (ud_cost_usd usage))
                    else ret tt).
    assert (Hbilling : exists w3, billing w2 = (Ok tt, w3)).
    { subst billing. destruct (bears_cost usage).
      - apply update_agent_billing_summary_returns.
      - exists w2. reflexivity. }
    destruct Hbilling as [w3 Hbilling]. exists w3. split; [exact Hbilling |].
    unfold track_usage. apply try_except_Ok.
    rewrite (bind_Ok _ _ _ _ _ Hupdate).
    unfold bind at 1, datetime_now_utc, bind at 1, time_time, ret at 1.
    change (add_usage_log _) with (add_usage_log (usage_log_of api_key_id usage (utc_date w1))).
    change (set_reads (S (reads w1)) w1) with (later w1).
    rewrite (bind_Ok _ _ _ _ _ Hadd).
    change (if negb (Qle_bool (default 0%Q (ud_cost_usd usage)) 0) then _ else _) with billing.
    rewrite (bind_Ok _ _ _ _ _ Hbilling). reflexivity.
  - intros fromisoformat float agent_id request call_next w. unfold bind at 1.
    destruct (__call__ fromisoformat float agent_id request call_next w) as [[response|e] w1];
      [| reflexivity].
    unfold bind. destruct (run_task_returns w1) as (w2 & ->). reflexivity.
Qed.

(** At the sample validator with a store that fails the next request:
    the failure of the update is the record that [track_usage] leaves, and
    the failure of the read is the record that the billing step leaves. *)
Lemma track_usage_never_raises_witness :
  logged (snd (track_usage "key1" sample_usage outage_world))
  = [(ERROR, "Failed to track usage for API key key1: store unavailable"%string)] /\
  logged (snd (_update_agent_billing_summary "agent-1" 42 (1 # 100) outage_world))
  = [(ERROR, "Failed to update agent billing summary: store unavailable"%string)].
Proof.
  destruct track_usage_never_raises as (_ & _ & Hupdate & _ & Hbilling & _).
  split.
  - rewrite (Hupdate "key1"%string sample_usage outage_world GoogleAPICallError
               (set_outages [] outage_world) eq_refl).
    reflexivity.
  - rewrite (Hbilling "agent-1"%string 42 (1 # 100)%Q outage_world [] (or_introl eq_refl)).
    reflexivity.
Defined.

(* ===================================================================== *)
(** ** Exceptions on the path of an API key *)
(* ===================================================================== *)

Section Exceptions.

Variable fromisoformat : string -> option datetime.
Variable float : string -> option Q.

(** C10.  On a request that carries an API key, [__call__] never
    raises: an exception raised in the body of the [try] is logged and
    answered with 500 and the detail "API key validation failed"; and an
    exception that the downstream handler raises, once the key is valid and
    within its limit, is such an exception. *)
Theorem exceptions_become_500 agent_id request call_next auth_header w :
  authorization request = Some auth_header ->
  Py.truthy auth_header && Py.startswith auth_header "Bearer ak_" = true ->
  let api_key := Py.slice_from 7 auth_header in
  let w0 := set_reads (S (reads w)) w in
  let body := authenticated fromisoformat float agent_id api_key (clock w (reads w))
                            request call_next in
  (exists response w', __call__ fromisoformat float agent_id request call_next w
                       = (Ok response, w')) /\
  (forall e w',
      body w0 = (Raise e, w') ->
      __call__ fromisoformat float agent_id request call_next w
      = (Ok (JSONResponse 500 "API key validation failed"),
         set_logged ((ERROR, "API key validation error: " +:+ exn_str e) :: logged w') w')) /\
  (forall key_doc w1 w2 e w3,
      validate_api_key fromisoformat api_key agent_id w0 = (Ok (Some key_doc), w1) ->
      check_rate_limit (doc_id key_doc) (default 100 (doc_rate_limit key_doc)) w1
      = (Ok true, w2) ->
      call_next (with_identity key_doc request) w2 = (Raise e, w3) ->
      body w0 = (Raise e, w3)).
Proof.
  intros Hauth Hprefix api_key w0 body.
  rewrite (call_with_api_key _ _ _ _ _ _ _ Hauth Hprefix). fold api_key w0 body.
  split; [| split].
  - apply try_except_returns. intros e w'. eexists _, _. reflexivity.
  - intros e w' Hbody. rewrite (try_except_Raise _ _ _ _ _ Hbody). reflexivity.
  - intros key_doc w1 w2 e w3 Hvalid Hlimit Hnext. subst body. unfold authenticated.
    rewrite (bind_Ok _ _ _ _ _ Hvalid). cbv beta iota zeta.
    rewrite (bind_Ok _ _ _ _ _ Hlimit). cbn [negb].
    rewrite (bind_Raise _ _ _ _ _ Hnext). reflexivity.
Qed.

End Exceptions.

(* ===================================================================== *)
(** ** The two outcomes of [check_rate_limit] *)
(* ===================================================================== *)

Lemma check_rate_limit_throttled id L w :
  let key := cache_key_of id (bucket w) in
  let c := rate_limit_cache w in
  L <= count_of c key ->
  check_rate_limit id L w
  = (Ok false,
     set_cache (match c !! key with None => <[key := 0]> c | Some _ => c end)
               (set_reads (S (reads w)) w)).
Proof.
  intros key c H. rewrite check_rate_limit_unfold. fold (bucket w). fold key. fold c.
  apply Z.leb_le in H. rewrite H. reflexivity.
Qed.

Lemma check_rate_limit_allowed id L w :
  let key := cache_key_of id (bucket w) in
  let c := rate_limit_cache w in
  count_of c key < L ->
  readable (<[key := count_of c key + 1]> c) ->
  check_rate_limit id L w
  = (Ok true,
     set_cache (filter (fun kv => fresh_key (bucket w) kv.1 = true)
                       (<[key := count_of c key + 1]> c))
               (set_reads (S (reads w)) w)).
Proof.
  intros key c H Hr. rewrite check_rate_limit_unfold. fold (bucket w). fold key. fold c.
  apply Z.leb_gt in H. rewrite H.
  rewrite keys_to_remove_of_Ok by (apply readable_keys; exact Hr).
  rewrite foldr_delete_stale. reflexivity.
Qed.

Lemma lookup_filter_fresh m (c : gmap string Z) k :
  fresh_key m k = true -> filter (fun kv => fresh_key m kv.1 = true) c !! k = c !! k.
Proof.
  intros H. destruct (c !! k) as [v|] eqn:Hk.
  - apply map_lookup_filter_Some. split; [exact Hk | exact H].
  - apply map_lookup_filter_None. left. exact Hk.
Qed.

Lemma fresh_cache_key m id m' :
  colon_free id = true -> m - 1 <= m' -> fresh_key m (cache_key_of id m') = true.
Proof.
  intros Hid Hm. unfold fresh_key. rewrite cache_minute_of_cache_key by exact Hid.
  apply negb_true_iff, Z.ltb_ge. lia.
Qed.

Lemma readable_insert (c : gmap string Z) k v :
  readable c -> readable_key k -> readable (<[k := v]> c).
Proof.
  intros Hc Hk k' v' H. apply lookup_insert_Some in H as [[<- _] | [_ H]]; [exact Hk |].
  eapply Hc, H.
Qed.

Lemma readable_filter m (c : gmap string Z) :
  readable c -> readable (filter (fun kv => fresh_key m kv.1 = true) c).
Proof. intros Hc k v H. apply map_lookup_filter_Some in H as [H _]. eapply Hc, H. Qed.

Lemma readable_cache_key id m : colon_free id = true -> readable_key (cache_key_of id m).
Proof. intros H. exists m. apply cache_minute_of_cache_key, H. Qed.

(** One call for a key id without [':'] on a cache whose keys are all
    readable: the answer is whether the count is below the limit, the count
    of the key grows by one when it is, and the counts of this minute and of
    the one before are otherwise as they were. *)
Lemma check_rate_limit_step id L w :
  colon_free id = true ->
  readable (rate_limit_cache w) ->
  let m := bucket w in
  let c := rate_limit_cache w in
  let n := count_of c (cache_key_of id m) in
  exists w',
    check_rate_limit id L w = (Ok (n <? L), w') /\
    clock w' = clock w /\ reads w' = S (reads w) /\
    readable (rate_limit_cache w') /\
    forall id' m',
      colon_free id' = true -> m - 1 <= m' ->
      count_of (rate_limit_cache w') (cache_key_of id' m')
      = count_of c (cache_key_of id' m')
        + (if (n <? L) && String.eqb id' id && (m' =? m) then 1 else 0).
Proof.
  intros Hid Hc m c n. destruct (n <? L) eqn:Hlt.
  - apply Z.ltb_lt in Hlt.
    assert (Hr : readable (<[cache_key_of id m := n + 1]> c))
      by (apply readable_insert; [exact Hc | apply readable_cache_key, Hid]).
    eexists. split; [apply check_rate_limit_allowed; assumption |].
    split; [reflexivity |]. split; [reflexivity |]. split.
    + apply readable_filter, Hr.
    + intros id' m' Hid' Hm'. cbn [rate_limit_cache set_cache andb]. unfold count_of at 1.
      rewrite lookup_filter_fresh by (apply fresh_cache_key; assumption).
      destruct (String.eqb id' id && (m' =? m)) eqn:Hsame.
      * apply andb_prop in Hsame as [Hi Hm]. apply String.eqb_eq in Hi. apply Z.eqb_eq in Hm.
        subst id' m'. rewrite lookup_insert_eq. reflexivity.
      * rewrite lookup_insert_ne; [rewrite Z.add_0_r; reflexivity |].
        intros Heq. apply cache_key_inj in Heq as [Hi Hm]; try assumption.
        rewrite <- Hi, <- Hm, String.eqb_refl, Z.eqb_refl in Hsame. discriminate.
  - apply Z.ltb_ge in Hlt.
    eexists. split; [apply check_rate_limit_throttled; assumption |].
    split; [reflexivity |]. split; [reflexivity |]. fold m. fold c.
    cbn [rate_limit_cache set_cache andb]. split.
    + destruct (c !! cache_key_of id m); [exact Hc |].
      apply readable_insert; [exact Hc | apply readable_cache_key, Hid].
    + intros id' m' _ _. rewrite Z.add_0_r.
      destruct (c !! cache_key_of id m) eqn:Hk; [reflexivity |].
      unfold count_of.
      destruct (decide (cache_key_of id m = cache_key_of id' m')) as [Heq | Hne].
      * rewrite <- Heq, lookup_insert_eq, Hk. reflexivity.
      * rewrite lookup_insert_ne by exact Hne. reflexivity.
Qed.

(* ===================================================================== *)
(** ** Counts are never negative *)
(* ===================================================================== *)

Lemma count_of_nonneg c key : nonneg c -> 0 <= count_of c key.
Proof.
  intros H. unfold count_of. destruct (c !! key) as [v|] eqn:Hk; [| reflexivity].
  exact (H key v Hk).
Qed.

Lemma check_rate_limit_nonneg id L w :
  nonneg (rate_limit_cache w) -> nonneg (rate_limit_cache (snd (check_rate_limit id L w))).
Proof.
  intros H. rewrite check_rate_limit_unfold. cbv zeta.
  set (key := cache_key_of id (minute_of (clock w (reads w)))).
  pose proof (count_of_nonneg (rate_limit_cache w) key H) as Hn.
  assert (Hins : nonneg (<[key := count_of (rate_limit_cache w) key + 1]> (rate_limit_cache w)))
    by (apply map_Forall_insert_2; [lia | exact H]).
  destruct (L <=? count_of (rate_limit_cache w) key).
  - cbn [snd rate_limit_cache set_cache].
    destruct (rate_limit_cache w !! key); [exact H |].
    apply map_Forall_insert_2; [lia | exact H].
  - destruct (keys_to_remove_of _ _) as [ks|e]; cbn [snd rate_limit_cache set_cache].
    + apply map_Forall_foldr_delete, Hins.
    + exact Hins.
Qed.

Lemma reachable_nonneg w : reachable w -> nonneg (rate_limit_cache w).
Proof.
  induction 1 as [w H | id L w _ IH | w w' _ IH H].
  - rewrite H. apply map_Forall_empty.
  - apply check_rate_limit_nonneg, IH.
  - rewrite H. exact IH.
Qed.

(* ===================================================================== *)
(** ** [validate_api_key] leaves the cache alone *)
(* ===================================================================== *)

Lemma keeps_cache_ret {A} (a : A) : keeps_cache (ret a).
Proof. intros w. reflexivity. Qed.

Lemma keeps_cache_raise {A} e : keeps_cache (@raise A e).
Proof. intros w. reflexivity. Qed.

Lemma keeps_cache_lift {A} (r : result A) : keeps_cache (lift r).
Proof. intros w. reflexivity. Qed.

Lemma keeps_cache_log l msg : keeps_cache (log l msg).
Proof. intros w. reflexivity. Qed.

Lemma keeps_cache_time_time : keeps_cache time_time.
Proof. intros w. reflexivity. Qed.

Lemma keeps_cache_get_db : keeps_cache get_db.
Proof. intros w. reflexivity. Qed.

Lemma keeps_cache_store_request : keeps_cache store_request.
Proof. intros w. unfold store_request. destruct (outages w) as [|[|] rest]; reflexivity. Qed.

Lemma keeps_cache_bind {A B} (m : M A) (k : A -> M B) :
  keeps_cache m -> (forall a, keeps_cache (k a)) -> keeps_cache (x <- m ;; k x).
Proof.
  intros Hm Hk w. unfold bind. specialize (Hm w).
  destruct (m w) as [[a|e] w1]; cbn [snd] in *; [| exact Hm].
  rewrite Hk. exact Hm.
Qed.

Lemma keeps_cache_try_except {A} (body : M A) handler :
  keeps_cache body -> (forall e, keeps_cache (handler e)) -> keeps_cache (try_except body handler).
Proof.
  intros Hm Hk w. unfold try_except. specialize (Hm w).
  destruct (body w) as [[a|e] w1]; cbn [snd] in *; [exact Hm |].
  rewrite Hk. exact Hm.
Qed.

Create HintDb keeps.

#[local] Hint Resolve keeps_cache_ret keeps_cache_raise keeps_cache_lift keeps_cache_log
  keeps_cache_time_time keeps_cache_get_db keeps_cache_store_request : keeps.

Ltac keeps :=
  repeat first
    [ apply keeps_cache_bind; [| intros ?]
    | apply keeps_cache_try_except; [| intros ?]
    | solve [auto with keeps]
    | match goal with |- keeps_cache (match ?x with _ => _ end) => destruct x end
    | match goal with |- keeps_cache (if ?x then _ else _) => destruct x end ].

Section KeepsCache.

Variable fromisoformat : string -> option datetime.

Lemma keeps_cache_has_expired d : keeps_cache (has_expired fromisoformat d).
Proof. unfold has_expired, datetime_now_utc. keeps. Qed.

Lemma keeps_cache_validate_loop key_hash agent_id query :
  keeps_cache (validate_loop fromisoformat key_hash agent_id query).
Proof.
  induction query as [|d query IH]; cbn [validate_loop]; [keeps |].
  destruct (match doc_key_hash d with
            | Some stored_hash => Py.truthy stored_hash && _secure_compare key_hash stored_hash
            | None => false
            end); [| exact IH].
  apply keeps_cache_bind; [apply keeps_cache_has_expired | intros expired]. keeps.
Qed.

Lemma keeps_cache_validate_api_key api_key agent_id :
  keeps_cache (validate_api_key fromisoformat api_key agent_id).
Proof.
  unfold validate_api_key, stream_active_keys.
  apply keeps_cache_try_except; [| intros e; keeps].
  repeat (apply keeps_cache_bind; [solve [auto with keeps] | intros ?]).
  apply keeps_cache_bind; [keeps | intros query]. apply keeps_cache_validate_loop.
Qed.

End KeepsCache.

(* ===================================================================== *)
(** ** Limits that are zero or negative *)
(* ===================================================================== *)

Section NonPositive.

Variable fromisoformat : string -> option datetime.
Variable float : string -> option Q.

(** C9.  In every state that the validator can reach, a call of
    [check_rate_limit] with a limit that is zero or negative returns
    [False], for every key id, also when it is the first call of the key in
    its minute: the counter is then created at 0 and stays there.  The
    middleware therefore answers 429 to every request that presents a
    valid key whose stored [rate_limit] is zero or negative. *)
Theorem nonpositive_limit_throttles api_key_id rate_limit w :
  reachable w ->
  rate_limit <= 0 ->
  let key := cache_key_of api_key_id (bucket w) in
  let out := check_rate_limit api_key_id rate_limit w in
  fst out = Ok false /\
  reachable (snd out) /\
  count_of (rate_limit_cache (snd out)) key = count_of (rate_limit_cache w) key /\
  (rate_limit_cache w !! key = None -> rate_limit_cache (snd out) !! key = Some 0) /\
  (forall agent_id request call_next auth_header key_doc w1,
      authorization request = Some auth_header ->
      Py.truthy auth_header && Py.startswith auth_header "Bearer ak_" = true ->
      validate_api_key fromisoformat (Py.slice_from 7 auth_header) agent_id
                       (set_reads (S (reads w)) w) = (Ok (Some key_doc), w1) ->
      doc_rate_limit key_doc = Some rate_limit ->
      fst (__call__ fromisoformat float agent_id request call_next w)
      = Ok (JSONResponse 429 "Rate limit exceeded")).
Proof.
  intros Hreach HL key out.
  assert (Hthr : forall id w', reachable w' ->
            check_rate_limit id rate_limit w'
            = (Ok false,
               set_cache (match rate_limit_cache w' !! cache_key_of id (bucket w') with
                          | None => <[cache_key_of id (bucket w') := 0]> (rate_limit_cache w')
                          | Some _ => rate_limit_cache w'
                          end)
                         (set_reads (S (reads w')) w'))).
  { intros id w' Hw'. apply check_rate_limit_throttled.
    pose proof (count_of_nonneg (rate_limit_cache w') (cache_key_of id (bucket w'))
                  (reachable_nonneg w' Hw')). lia. }
  subst out. split; [rewrite Hthr by exact Hreach; reflexivity |].
  split; [apply reachable_call, Hreach |].
  rewrite Hthr by exact Hreach. cbn [snd rate_limit_cache set_cache]. fold key.
  split; [| split].
  - unfold count_of. destruct (rate_limit_cache w !! key) eqn:Hk; [rewrite Hk; reflexivity |].
    rewrite lookup_insert_eq. reflexivity.
  - intros Hk. rewrite Hk. apply lookup_insert_eq.
  - intros agent_id request call_next auth_header key_doc w1 Hauth Hprefix Hvalid Hlimit.
    rewrite (call_with_api_key _ _ _ _ _ _ _ Hauth Hprefix).
    assert (Hw1 : reachable w1).
    { apply (reachable_other w); [exact Hreach |].
      pose proof (keeps_cache_validate_api_key fromisoformat (Py.slice_from 7 auth_header)
                    agent_id (set_reads (S (reads w)) w)) as Hkeep.
      rewrite Hvalid in Hkeep. exact Hkeep. }
    erewrite try_except_Ok; [reflexivity |].
    unfold authenticated. rewrite (bind_Ok _ _ _ _ _ Hvalid). cbv beta iota zeta.
    rewrite Hlimit. cbn [default].
    rewrite (bind_Ok _ _ _ _ _ (Hthr (doc_id key_doc) w1 Hw1)). reflexivity.
Qed.

End NonPositive.

(* ===================================================================== *)
(** ** Cleaning *)
(* ===================================================================== *)

Lemma colon_free_entries_empty : colon_free_entries ∅.
Proof. intros k v H. rewrite lookup_empty in H. discriminate. Qed.

Lemma colon_free_entries_readable c : colon_free_entries c -> readable c.
Proof.
  intros H k v Hk. destruct (H k v Hk) as (id & m & Hid & ->).
  apply readable_cache_key, Hid.
Qed.

Lemma colon_free_entries_insert (c : gmap string Z) id m v :
  colon_free id = true -> colon_free_entries c ->
  colon_free_entries (<[cache_key_of id m := v]> c).
Proof.
  intros Hid Hc k v' Hk. apply lookup_insert_Some in Hk as [[<- _] | [_ Hk]].
  - exists id, m. auto.
  - eapply Hc, Hk.
Qed.

(** The entries stay entries of key ids without [':'] over a call for
    such a key id. *)
Lemma colon_free_entries_call id L w :
  colon_free id = true ->
  colon_free_entries (rate_limit_cache w) ->
  colon_free_entries (rate_limit_cache (snd (check_rate_limit id L w))).
Proof.
  intros Hid Hc.
  set (key := cache_key_of id (bucket w)). set (c := rate_limit_cache w) in *.
  destruct (Z.lt_ge_cases (count_of c key) L) as [Hlt | Hge].
  - rewrite check_rate_limit_allowed; [| exact Hlt |].
    + cbn [snd rate_limit_cache set_cache]. intros k v Hk.
      apply map_lookup_filter_Some in Hk as [Hk _].
      eapply colon_free_entries_insert; [exact Hid | exact Hc | exact Hk].
    + apply colon_free_entries_readable, colon_free_entries_insert; assumption.
  - rewrite check_rate_limit_throttled by exact Hge.
    cbn [snd rate_limit_cache set_cache]. fold c. fold key.
    destruct (c !! key); [exact Hc | apply colon_free_entries_insert; assumption].
Qed.

(** C5, for key ids without [':'].  The cache holds entries of such key
    ids only, and the minute bucket of an entry is the minute that was
    written into its key.  A call for such a key id returns, [True] when the
    count of the key is below the limit and [False] otherwise, and the
    entries stay entries of such key ids.  After a call that returns [True]
    every entry whose bucket is older than the one before the current
    minute is gone and every other entry, the counted one included, is
    there: the entries left are of the current minute or the one before
    when no entry was of a later minute.  A call that returns [False]
    returned before the cleaning loop: every entry that was in the cache is
    still there. *)
Theorem cleaning_follows_an_allowed_call api_key_id rate_limit w :
  colon_free api_key_id = true ->
  colon_free_entries (rate_limit_cache w) ->
  let m := bucket w in
  let key := cache_key_of api_key_id m in
  let cache := rate_limit_cache w in
  let counted := <[key := count_of cache key + 1]> cache in
  let out := check_rate_limit api_key_id rate_limit w in
  let cache' := rate_limit_cache (snd out) in
  fst out = Ok (count_of cache key <? rate_limit) /\
  colon_free_entries cache' /\
  (fst out = Ok true ->
     (forall id' m', colon_free id' = true ->
        cache' !! cache_key_of id' m'
        = if m' <? m - 1 then None else counted !! cache_key_of id' m') /\
     (forall id' m' v, colon_free id' = true ->
        cache' !! cache_key_of id' m' = Some v -> m - 1 <= m') /\
     ((forall id' m' v, colon_free id' = true ->
          cache !! cache_key_of id' m' = Some v -> m' <= m) ->
      forall id' m' v, colon_free id' = true ->
        cache' !! cache_key_of id' m' = Some v -> m' = m \/ m' = m - 1)) /\
  (fst out = Ok false -> forall k v, cache !! k = Some v -> cache' !! k = Some v).
Proof.
  intros Hid Hentries m key cache counted out cache'.
  split; [| split; [apply colon_free_entries_call; assumption |]].
  { subst out. destruct (Z.lt_ge_cases (count_of cache key) rate_limit) as [Hlt | Hge].
    - rewrite check_rate_limit_allowed; [| exact Hlt |].
      + apply Z.ltb_lt in Hlt. subst cache key m. rewrite Hlt. reflexivity.
      + apply colon_free_entries_readable, colon_free_entries_insert; assumption.
    - rewrite check_rate_limit_throttled by exact Hge.
      apply Z.ltb_ge in Hge. subst cache key m. rewrite Hge. reflexivity. }
  destruct (Z.lt_ge_cases (count_of cache key) rate_limit) as [Hlt | Hge].
  - assert (Hout : out = (Ok true,
                          set_cache (filter (fun kv => fresh_key m kv.1 = true) counted)
                                    (set_reads (S (reads w)) w))).
    { subst out. apply check_rate_limit_allowed; [exact Hlt |].
      apply colon_free_entries_readable, colon_free_entries_insert; assumption. }
    split; [| subst cache'; rewrite Hout; discriminate].
    intros _.
    assert (Hcache : forall id' m', colon_free id' = true ->
              cache' !! cache_key_of id' m'
              = if m' <? m - 1 then None else counted !! cache_key_of id' m').
    { intros id' m' Hid'. subst cache'. rewrite Hout. cbn [snd rate_limit_cache set_cache].
      destruct (m' <? m - 1) eqn:Hold.
      - apply map_lookup_filter_None. right. intros v _. cbn [fst].
        unfold fresh_key. rewrite cache_minute_of_cache_key by exact Hid'.
        rewrite Hold. discriminate.
      - apply lookup_filter_fresh, fresh_cache_key; [exact Hid' |].
        apply Z.ltb_ge in Hold. lia. }
    assert (Hkept : forall id' m' v, colon_free id' = true ->
              cache' !! cache_key_of id' m' = Some v ->
              m - 1 <= m' /\ counted !! cache_key_of id' m' = Some v).
    { intros id' m' v Hid' Hk. rewrite (Hcache id' m' Hid') in Hk.
      destruct (m' <? m - 1) eqn:Hold; [discriminate |].
      apply Z.ltb_ge in Hold. split; [lia | exact Hk]. }
    split; [exact Hcache |]. split.
    + intros id' m' v Hid' Hk. apply (Hkept id' m' v Hid' Hk).
    + intros Hlater id' m' v Hid' Hk. destruct (Hkept id' m' v Hid' Hk) as [Hge Hin].
      assert (Hle : m' <= m).
      { subst counted. apply lookup_insert_Some in Hin as [[Heq _] | [_ Hin]].
        - apply cache_key_inj in Heq as [_ Hm]; [lia | exact Hid | exact Hid'].
        - apply (Hlater id' m' v Hid' Hin). }
      lia.
  - assert (Hout : out = (Ok false,
                          set_cache (match cache !! key with
                                     | None => <[key := 0]> cache
                                     | Some _ => cache
                                     end) (set_reads (S (reads w)) w))).
    { subst out. apply check_rate_limit_throttled. exact Hge. }
    split; [rewrite Hout; discriminate |].
    intros _ k v Hk. subst cache'. rewrite Hout. cbn [snd rate_limit_cache set_cache].
    destruct (cache !! key) eqn:Hkey; [exact Hk |].
    rewrite lookup_insert_ne; [exact Hk | congruence].
Qed.

(* ===================================================================== *)
(** ** Calls in one minute *)
(* ===================================================================== *)

Lemma readings_in_bucket m k w : readings_in m (S k) w -> bucket w = m.
Proof. intros H. unfold bucket. rewrite <- (Nat.add_0_r (reads w)). apply H. lia. Qed.

Lemma readings_in_next m k w w' :
  readings_in m (S k) w -> clock w' = clock w -> reads w' = S (reads w) ->
  readings_in m k w'.
Proof.
  intros H Hc Hr i Hi. rewrite Hc, Hr.
  replace (S (reads w) + i)%nat with (reads w + S i)%nat by lia. apply H. lia.
Qed.

Lemma check_rate_limits_cons id L calls w answer w' :
  check_rate_limit id L w = (Ok answer, w') ->
  check_rate_limits ((id, L) :: calls) w
  = (answers <- check_rate_limits calls ;; ret (answer :: answers)) w'.
Proof. intros H. cbn [check_rate_limits]. rewrite (bind_Ok _ _ _ _ _ H). reflexivity. Qed.

(** [k] calls in a row for one key, while its count stays within the
    limit, are all allowed and raise the count by [k]. *)
Lemma allowed_calls id L m k : forall w,
  colon_free id = true ->
  readable (rate_limit_cache w) ->
  readings_in m k w ->
  count_of (rate_limit_cache w) (cache_key_of id m) + Z.of_nat k <= L ->
  exists w',
    check_rate_limits (repeat (id, L) k) w = (Ok (repeat true k), w') /\
    clock w' = clock w /\ reads w' = (reads w + k)%nat /\
    readable (rate_limit_cache w') /\
    count_of (rate_limit_cache w') (cache_key_of id m)
    = count_of (rate_limit_cache w) (cache_key_of id m) + Z.of_nat k /\
    forall m', m <= m' -> m' <> m ->
      count_of (rate_limit_cache w') (cache_key_of id m')
      = count_of (rate_limit_cache w) (cache_key_of id m').
Proof.
  induction k as [|k IH]; intros w Hid Hread Hin Hcount.
  - exists w. cbn [repeat check_rate_limits]. rewrite Nat.add_0_r, Z.add_0_r.
    repeat split; auto.
  - pose proof (readings_in_bucket _ _ _ Hin) as Hm.
    destruct (check_rate_limit_step id L w Hid Hread) as (w1 & Hcall & Hc & Hr & Hread1 & Hcounts).
    rewrite Hm in Hcall, Hcounts.
    assert (Hlt : (count_of (rate_limit_cache w) (cache_key_of id m) <? L) = true)
      by (apply Z.ltb_lt; lia).
    rewrite Hlt in Hcall, Hcounts. cbn [andb] in Hcounts.
    assert (Hself : count_of (rate_limit_cache w1) (cache_key_of id m)
                    = count_of (rate_limit_cache w) (cache_key_of id m) + 1).
    { rewrite (Hcounts id m Hid) by lia. rewrite String.eqb_refl, Z.eqb_refl. reflexivity. }
    destruct (IH w1 Hid Hread1 (readings_in_next _ _ _ _ Hin Hc Hr)) as
      (w' & Hrest & Hc' & Hr' & Hread' & Hself' & Hother'); [lia |].
    exists w'. cbn [repeat]. rewrite (check_rate_limits_cons _ _ _ _ _ _ Hcall).
    rewrite (bind_Ok _ _ _ _ _ Hrest).
    split; [reflexivity |]. split; [congruence |]. split; [lia |]. split; [exact Hread' |].
    split; [lia |].
    intros m' Hle Hne. rewrite (Hother' m' Hle Hne), (Hcounts id m' Hid) by lia.
    rewrite String.eqb_refl. cbn [andb].
    destruct (m' =? m) eqn:E; [apply Z.eqb_eq in E; contradiction | lia].
Qed.

(** X6.  The window of one key whose id holds no [':'].  From a cache whose keys are all
    readable and that counts nothing yet for the key in minute [m] nor in
    minute [m + 1]: [L] calls in minute [m] are all allowed, the next call
    in that minute is refused and leaves the counter at [L], and the first
    call of minute [m + 1] is allowed. *)
Theorem rate_limit_window api_key_id L m w :
  colon_free api_key_id = true ->
  0 < L ->
  readable (rate_limit_cache w) ->
  count_of (rate_limit_cache w) (cache_key_of api_key_id m) = 0 ->
  count_of (rate_limit_cache w) (cache_key_of api_key_id (m + 1)) = 0 ->
  readings_in m (S (Z.to_nat L)) w ->
  minute_of (clock w (reads w + S (Z.to_nat L))%nat) = m + 1 ->
  exists w1 w2 w3,
    check_rate_limits (repeat (api_key_id, L) (Z.to_nat L)) w
    = (Ok (repeat true (Z.to_nat L)), w1) /\
    check_rate_limit api_key_id L w1 = (Ok false, w2) /\
    count_of (rate_limit_cache w1) (cache_key_of api_key_id m) = L /\
    count_of (rate_limit_cache w2) (cache_key_of api_key_id m) = L /\
    check_rate_limit api_key_id L w2 = (Ok true, w3).
Proof.
  intros Hid HL Hread H0 H1 Hin Hnext.
  destruct (allowed_calls api_key_id L m (Z.to_nat L) w Hid Hread) as
    (w1 & Hcalls & Hc1 & Hr1 & Hread1 & Hself1 & Hother1).
  { intros i Hi. apply Hin. lia. }
  { rewrite H0. lia. }
  rewrite H0 in Hself1. rewrite Z2Nat.id in Hself1 by lia. cbn in Hself1.
  assert (Hb1 : bucket w1 = m).
  { unfold bucket. rewrite Hc1, Hr1. apply Hin. lia. }
  destruct (check_rate_limit_step api_key_id L w1 Hid Hread1) as
    (w2 & Hcall2 & Hc2 & Hr2 & Hread2 & Hcounts2).
  rewrite Hb1, Hself1 in Hcall2, Hcounts2. rewrite Z.ltb_irrefl in Hcall2, Hcounts2.
  cbn [andb] in Hcounts2.
  assert (Hb2 : bucket w2 = m + 1).
  { unfold bucket. rewrite Hc2, Hr2, Hc1, Hr1.
    replace (S (reads w + Z.to_nat L)) with (reads w + S (Z.to_nat L))%nat by lia. exact Hnext. }
  destruct (check_rate_limit_step api_key_id L w2 Hid Hread2) as
    (w3 & Hcall3 & _).
  rewrite Hb2 in Hcall3.
  rewrite (Hcounts2 api_key_id (m + 1) Hid), (Hother1 (m + 1)), H1 in Hcall3 by lia.
  assert (Hlt : (0 + 0 <? L) = true) by (apply Z.ltb_lt; lia). rewrite Hlt in Hcall3.
  exists w1, w2, w3. split; [exact Hcalls |]. split; [exact Hcall2 |].
  split; [exact Hself1 |]. split; [| exact Hcall3].
  rewrite (Hcounts2 api_key_id m Hid), Hself1 by lia. lia.
Qed.

(* ===================================================================== *)
(** ** Callers that the event loop interleaves *)
(* ===================================================================== *)

Lemma allowed_throttled answers :
  allowed answers + throttled answers = Z.of_nat (List.length answers).
Proof.
  unfold allowed, throttled. induction answers as [|[|] answers IH]; cbn [count_occ List.length];
    [reflexivity | |]; destruct (bool_dec _ _); try congruence; destruct (bool_dec _ _);
    try congruence; lia.
Qed.

(** Every run of calls in one minute, for key ids without [':'], in which
    the key [id] always comes with the limit [N]: the calls all return, and
    of those made for [id] as many are allowed as the limit leaves room
    for. *)
Lemma interleaved_calls id N m calls : forall w,
  colon_free id = true ->
  readable (rate_limit_cache w) ->
  readings_in m (List.length calls) w ->
  Forall (fun call => colon_free (fst call) = true /\ (fst call = id -> snd call = N)) calls ->
  count_of (rate_limit_cache w) (cache_key_of id m) <= N ->
  exists answers w',
    check_rate_limits calls w = (Ok answers, w') /\
    List.length answers = List.length calls /\
    allowed (answers_for id calls answers)
    = Z.min (N - count_of (rate_limit_cache w) (cache_key_of id m))
            (Z.of_nat (List.length (answers_for id calls answers))).
Proof.
  induction calls as [|[id' L'] calls IH]; intros w Hid Hread Hin Hcalls Hcount.
  - exists [], w. cbn. split; [reflexivity |]. split; [reflexivity |]. unfold allowed. cbn. lia.
  - inversion Hcalls as [|? ? [Hid' HL'] Hcalls']; subst. cbn [fst snd] in Hid', HL'.
    cbn [List.length] in Hin.
    pose proof (readings_in_bucket _ _ _ Hin) as Hm.
    destruct (check_rate_limit_step id' L' w Hid' Hread) as
      (w1 & Hcall & Hc & Hr & Hread1 & Hcounts).
    rewrite Hm in Hcall, Hcounts.
    pose proof (Hcounts id m Hid ltac:(lia)) as Hself. rewrite Z.eqb_refl, andb_true_r in Hself.
    set (n := count_of (rate_limit_cache w) (cache_key_of id m)) in *.
    set (n' := count_of (rate_limit_cache w) (cache_key_of id' m)) in *.
    destruct (IH w1 Hid Hread1 (readings_in_next _ _ _ _ Hin Hc Hr) Hcalls') as
      (answers & w' & Hrest & Hlen & Hallowed).
    { rewrite Hself. rewrite String.eqb_sym.
      destruct (String.eqb id' id) eqn:E; [| rewrite andb_false_r; lia].
      apply String.eqb_eq in E. subst id'. rewrite HL' by reflexivity. subst n'. fold n.
      destruct (n <? N) eqn:Hlt; cbn [andb]; [apply Z.ltb_lt in Hlt |]; lia. }
    exists ((n' <? L') :: answers), w'.
    rewrite (check_rate_limits_cons _ _ _ _ _ _ Hcall), (bind_Ok _ _ _ _ _ Hrest).
    split; [reflexivity |]. split; [cbn [List.length]; lia |].
    cbn [answers_for]. rewrite Hself in Hallowed. rewrite String.eqb_sym in Hallowed.
    destruct (String.eqb id' id) eqn:E.
    + apply String.eqb_eq in E. subst id'. rewrite HL' in * by reflexivity. subst n'. fold n in Hallowed |- *.
      cbn [List.length]. unfold allowed in *. cbn [count_occ].
      destruct (n <? N) eqn:Hlt; cbn [andb] in Hallowed.
      * apply Z.ltb_lt in Hlt. destruct (bool_dec true true); [| congruence]. lia.
      * apply Z.ltb_ge in Hlt. destruct (bool_dec false true); [congruence |]. lia.
    + rewrite andb_false_r, Z.add_0_r in Hallowed. exact Hallowed.
Qed.

(* ===================================================================== *)
(** ** The properties at the samples *)
(* ===================================================================== *)

(** The key [ak_live] is valid until 2099; the key [ak_old] expired in
    2020. *)
Lemma validate_api_key_correct_witness :
  fst (validate_api_key fromisoformat_basic "ak_live" "agent-1" sample_world) = Ok (Some key_live)
  /\ fst (validate_api_key fromisoformat_basic "ak_old" "agent-1" sample_world) = Ok None.
Proof.
  split.
  - apply (validate_api_key_correct fromisoformat_basic "ak_live" "agent-1" sample_world
             [] key_live [key_old; key_zero]);
      [reflexivity | reflexivity | constructor | reflexivity | vm_compute; reflexivity].
  - apply (validate_api_key_correct fromisoformat_basic "ak_old" "agent-1" sample_world
             [key_live] key_old [key_zero]);
      [reflexivity | reflexivity | | reflexivity | vm_compute; reflexivity].
    constructor; [| constructor]. vm_compute. discriminate.
Defined.

(** A store that fails makes the valid key [ak_live] a 401. *)
Lemma store_failure_answers_401_witness :
  fst (validate_api_key fromisoformat_basic "ak_live" "agent-1" outage_world) = Ok None /\
  fst (__call__ fromisoformat_basic float_basic "agent-1"
                (sample_request (Some "Bearer ak_live"%string)) echo_handler outage_world)
  = Ok (JSONResponse 401 "Invalid or inactive API key").
Proof.
  apply (store_failure_answers_401 fromisoformat_basic float_basic "agent-1"
           (sample_request (Some "Bearer ak_live"%string)) echo_handler
           "Bearer ak_live" outage_world []); reflexivity.
Defined.

(** A request without the header and a request with another bearer token
    reach the handler. *)
Lemma no_api_key_passes_through_witness :
  __call__ fromisoformat_basic float_basic "agent-1" (sample_request None)
           echo_handler sample_world
  = echo_handler (sample_request None) (set_reads 1 sample_world)
  /\ __call__ fromisoformat_basic float_basic "agent-1"
              (sample_request (Some "Bearer eyJhbGciOi"%string)) failing_handler sample_world
     = failing_handler (sample_request (Some "Bearer eyJhbGciOi"%string))
                       (set_reads 1 sample_world).
Proof.
  split.
  - apply (no_api_key_passes_through fromisoformat_basic float_basic "agent-1"
             (sample_request None) echo_handler sample_world).
    intros auth_header H. discriminate H.
  - apply (no_api_key_passes_through fromisoformat_basic float_basic "agent-1"
             (sample_request (Some "Bearer eyJhbGciOi"%string)) failing_handler sample_world).
    intros auth_header H. injection H as <-. reflexivity.
Defined.

(** The handler raises on a request with the valid key [ak_live]: 500. *)
Lemma exceptions_become_500_witness :
  fst (__call__ fromisoformat_basic float_basic "agent-1"
                (sample_request (Some "Bearer ak_live"%string)) failing_handler sample_world)
  = Ok (JSONResponse 500 "API key validation failed").
Proof.
  destruct (exceptions_become_500 fromisoformat_basic float_basic "agent-1"
              (sample_request (Some "Bearer ak_live"%string)) failing_handler
              "Bearer ak_live" sample_world eq_refl eq_refl) as (_ & Hraise & Hnext).
  set (w0 := set_reads 1 sample_world).
  set (valid := validate_api_key fromisoformat_basic "ak_live" "agent-1" w0).
  set (limit := check_rate_limit "key1" 2 (snd valid)).
  set (next := failing_handler (with_identity key_live (sample_request (Some "Bearer ak_live"%string)))
                               (snd limit)).
  assert (Hvalid : valid = (Ok (Some key_live), snd valid)) by (vm_compute; reflexivity).
  assert (Hlimit : limit = (Ok true, snd limit)) by (vm_compute; reflexivity).
  assert (Hfail : next = (Raise (HandlerError "handler failed"), snd next))
    by (vm_compute; reflexivity).
  rewrite (Hraise _ _ (Hnext key_live (snd valid) (snd limit) _ (snd next) Hvalid Hlimit Hfail)).
  reflexivity.
Defined.

(** The key [key3] has the limit 0. *)
Lemma nonpositive_limit_throttles_witness :
  fst (check_rate_limit "key3" 0 sample_world) = Ok false /\
  fst (__call__ fromisoformat_basic float_basic "agent-1"
                (sample_request (Some "Bearer ak_zero"%string)) echo_handler sample_world)
  = Ok (JSONResponse 429 "Rate limit exceeded").
Proof.
  destruct (nonpositive_limit_throttles fromisoformat_basic float_basic "key3" 0 sample_world
              (reachable_init sample_world eq_refl) ltac:(lia)) as (Hcall & _ & _ & _ & H429).
  split; [exact Hcall |].
  eapply (H429 "agent-1"%string (sample_request (Some "Bearer ak_zero"%string)) echo_handler
               "Bearer ak_zero"%string key_zero); [reflexivity | reflexivity | | reflexivity].
  vm_compute. reflexivity.
Defined.

Lemma readable_empty : readable ∅.
Proof. intros k v H. rewrite lookup_empty in H. discriminate. Qed.

(** At [late_world]: the first call, in minute 50, counts [key1:50]; the
    call for [key3] in minute 100 is refused and leaves [key1:50] in the
    cache; the call for [key1] in minute 100 is allowed and removes it. *)
Lemma cleaning_follows_an_allowed_call_witness :
  let w1 := snd (check_rate_limit "key1" 2 late_world) in
  rate_limit_cache w1 !! cache_key_of "key1" 50 = Some 1 /\
  fst (check_rate_limit "key1" 2 w1) = Ok true /\
  rate_limit_cache (snd (check_rate_limit "key1" 2 w1)) !! cache_key_of "key1" 50 = None /\
  (forall k v,
      rate_limit_cache w1 !! k = Some v ->
      rate_limit_cache (snd (check_rate_limit "key3" 0 w1)) !! k = Some v).
Proof.
  intros w1.
  assert (Hentries : colon_free_entries (rate_limit_cache w1)).
  { apply (cleaning_follows_an_allowed_call "key1" 2 late_world eq_refl
             colon_free_entries_empty). }
  assert (Hallowed : fst (check_rate_limit "key1" 2 w1) = Ok true) by (vm_compute; reflexivity).
  split; [vm_compute; reflexivity |]. split; [exact Hallowed |]. split.
  - destruct (cleaning_follows_an_allowed_call "key1" 2 w1 eq_refl Hentries)
      as (_ & _ & Hclean & _).
    destruct (Hclean Hallowed) as (Hcache & _).
    rewrite (Hcache "key1"%string 50 eq_refl). vm_compute. reflexivity.
  - destruct (cleaning_follows_an_allowed_call "key3" 0 w1 eq_refl Hentries)
      as (_ & _ & _ & Hkeep).
    apply Hkeep. vm_compute. reflexivity.
Defined.

(** C5 as stated fails, also where every key id is without [':']: the
    call for [key3], whose limit is 0, is refused in minute 100 and the
    cache still holds the entry that [key1] counted in minute 50. *)
Lemma cleaning_skipped_by_a_throttled_call :
  let w1 := snd (check_rate_limit "key1" 2 late_world) in
  let out := check_rate_limit "key3" 0 w1 in
  (reachable w1 /\ colon_free_entries (rate_limit_cache w1) /\ bucket w1 = 100 /\
   fst out = Ok false /\
   rate_limit_cache (snd out) !! cache_key_of "key1" 50 = Some 1) /\
  ~ (forall api_key_id rate_limit w,
        reachable w ->
        colon_free api_key_id = true ->
        colon_free_entries (rate_limit_cache w) ->
        forall id' m' v,
          colon_free id' = true ->
          rate_limit_cache (snd (check_rate_limit api_key_id rate_limit w))
          !! cache_key_of id' m' = Some v ->
          bucket w - 1 <= m').
Proof.
  intros w1 out.
  assert (Hreach : reachable w1) by (apply reachable_call, reachable_init; reflexivity).
  assert (Hentries : colon_free_entries (rate_limit_cache w1)).
  { apply colon_free_entries_call; [reflexivity | apply colon_free_entries_empty]. }
  assert (Hentry : rate_limit_cache (snd out) !! cache_key_of "key1" 50 = Some 1)
    by (vm_compute; reflexivity).
  assert (Hbucket : bucket w1 = 100) by (vm_compute; reflexivity).
  split.
  - split; [exact Hreach |]. split; [exact Hentries |]. split; [exact Hbucket |].
    split; [vm_compute; reflexivity | exact Hentry].
  - intros H.
    pose proof (H "key3"%string 0 w1 Hreach eq_refl Hentries "key1"%string 50 1 eq_refl Hentry)
      as Hle.
    rewrite Hbucket in Hle. lia.
Defined.

(** C3, at the code.  With the key id ["k:0"] and the limit 1, the second
    call in the same minute is allowed as well: the cleaning loop reads the
    field ["0"] of the key ["k:0:28333333"] as its minute and deletes the
    entry that the call has just counted. *)
Theorem colon_in_key_id_lifts_the_limit :
  fst (check_rate_limits [("k:0"%string, 1); ("k:0"%string, 1)] sample_world) = Ok [true; true] /\
  cache_key_of "k:0" (bucket sample_world) = "k:0:28333333"%string /\
  cache_minute_of "k:0:28333333" = Ok 0 /\
  rate_limit_cache (snd (check_rate_limit "k:0" 1 sample_world)) = ∅.
Proof. repeat split; vm_compute; reflexivity. Qed.

(** The window at the key id ["key1"] with the limit 2. *)
Lemma rate_limit_window_witness :
  exists w1 w2 w3,
    check_rate_limits [("key1"%string, 2); ("key1"%string, 2)] window_world
    = (Ok [true; true], w1) /\
    check_rate_limit "key1" 2 w1 = (Ok false, w2) /\
    count_of (rate_limit_cache w1) (cache_key_of "key1" 28333333) = 2 /\
    count_of (rate_limit_cache w2) (cache_key_of "key1" 28333333) = 2 /\
    check_rate_limit "key1" 2 w2 = (Ok true, w3).
Proof.
  apply (rate_limit_window "key1" 2 28333333 window_world);
    [reflexivity | lia | apply readable_empty | reflexivity | reflexivity | |
     vm_compute; reflexivity].
  intros i Hi. do 3 (destruct i as [|i]; [vm_compute; reflexivity |]). lia.
Defined.

(* ===================================================================== *)
(** ** Callers in every order *)
(* ===================================================================== *)

Lemma answers_for_length id calls : forall answers,
  List.length answers = List.length calls ->
  List.length (answers_for id calls answers) = List.length (calls_for id calls).
Proof.
  induction calls as [|[id' L'] calls IH]; intros [|a answers] Hlen; try discriminate;
    [reflexivity |].
  cbn [answers_for calls_for List.filter fst]. fold (calls_for id calls).
  destruct (String.eqb id' id); cbn [List.length]; rewrite IH by (cbn in Hlen; lia); reflexivity.
Qed.

Lemma calls_for_Permutation id calls calls' :
  Permutation calls calls' ->
  List.length (calls_for id calls) = List.length (calls_for id calls').
Proof.
  unfold calls_for.
  induction 1 as [| call l l' _ IH | a b l | l l' l'' _ IH1 _ IH2]; cbn [List.filter].
  - reflexivity.
  - destruct (String.eqb (fst call) id); cbn [List.length]; rewrite IH; reflexivity.
  - destruct (String.eqb (fst a) id), (String.eqb (fst b) id); reflexivity.
  - congruence.
Qed.

Lemma calls_for_callers id N M others :
  Forall (fun call => colon_free (fst call) = true /\ fst call <> id) others ->
  List.length (calls_for id (repeat (id, N) M ++ others)) = M.
Proof.
  intros Hothers. unfold calls_for. rewrite List.filter_app, List.length_app.
  assert (H1 : List.filter (fun call : string * Z => String.eqb (fst call) id) (repeat (id, N) M)
               = repeat (id, N) M).
  { induction M as [|M IH]; [reflexivity |].
    cbn [repeat List.filter fst]. rewrite String.eqb_refl, IH. reflexivity. }
  assert (H2 : List.filter (fun call : string * Z => String.eqb (fst call) id) others = []).
  { induction Hothers as [|call others [_ Hne] _ IH]; [reflexivity |].
    cbn [List.filter]. apply String.eqb_neq in Hne. rewrite Hne. exact IH. }
  rewrite H1, H2, repeat_length. cbn. lia.
Qed.

(** X7.  Callers of one key.  [M] callers present the key [id] with the
    limit [N], [0 <= N < M], and all calls of the run fall in one minute
    [m].  The id of the key holds no [':'], the other calls of the run are
    for other keys whose ids hold no [':'] either, and the run starts from
    a cache whose keys the cleaning loop can all read and that counts
    nothing yet for [id] in [m].  [check_rate_limit] holds no [await], so
    the event loop runs each call from its first line to its [return] and
    the calls run one after the other in some order.  In every order all
    calls return, exactly [N] of the [M] are allowed and [M - N] are
    refused. *)
Theorem callers_share_the_limit id N M others calls m w :
  colon_free id = true ->
  0 <= N < Z.of_nat M ->
  readable (rate_limit_cache w) ->
  count_of (rate_limit_cache w) (cache_key_of id m) = 0 ->
  Forall (fun call => colon_free (fst call) = true /\ fst call <> id) others ->
  Permutation calls (repeat (id, N) M ++ others) ->
  readings_in m (List.length calls) w ->
  exists answers w',
    check_rate_limits calls w = (Ok answers, w') /\
    allowed (answers_for id calls answers) = N /\
    throttled (answers_for id calls answers) = Z.of_nat M - N.
Proof.
  intros Hid HN Hread Hcount Hothers Hperm Hin.
  assert (Hcalls : Forall (fun call => colon_free (fst call) = true /\ (fst call = id -> snd call = N))
                          calls).
  { eapply Permutation_Forall; [symmetry; exact Hperm |].
    apply Forall_app. split.
    - apply Forall_forall. intros call Hc. apply list_elem_of_In, repeat_spec in Hc. subst call.
      auto.
    - eapply Forall_impl; [exact Hothers |]. intros call [Hc Hne]. split; [exact Hc | tauto]. }
  destruct (interleaved_calls id N m calls w Hid Hread Hin Hcalls) as
    (answers & w' & Hrun & Hlen & Hallowed); [lia |].
  rewrite Hcount in Hallowed.
  assert (HM : List.length (answers_for id calls answers) = M).
  { rewrite (answers_for_length id calls answers Hlen), (calls_for_Permutation id _ _ Hperm).
    apply calls_for_callers, Hothers. }
  exists answers, w'. split; [exact Hrun |].
  pose proof (allowed_throttled (answers_for id calls answers)) as Hsum.
  rewrite HM in Hallowed, Hsum. lia.
Qed.

(** Three callers of [key1] with the limit 2, and one of [key2], in an
    order of the event loop. *)
Lemma callers_share_the_limit_witness :
  exists answers w',
    check_rate_limits [("key1"%string, 2); ("key2"%string, 5); ("key1"%string, 2);
                       ("key1"%string, 2)] sample_world
    = (Ok answers, w') /\
    allowed (answers_for "key1" [("key1"%string, 2); ("key2"%string, 5); ("key1"%string, 2);
                                 ("key1"%string, 2)] answers) = 2 /\
    throttled (answers_for "key1" [("key1"%string, 2); ("key2"%string, 5); ("key1"%string, 2);
                                   ("key1"%string, 2)] answers) = Z.of_nat 3 - 2.
Proof.
  apply (callers_share_the_limit "key1" 2 3 [("key2"%string, 5)] _ 28333333 sample_world);
    [reflexivity | lia | apply readable_empty | reflexivity | | | ].
  - constructor; [| constructor]. split; [reflexivity | discriminate].
  - cbn [repeat app]. apply perm_skip. apply (Permutation_middle [_; _] []).
  - intros i _. vm_compute. reflexivity.
Defined.

(** C7, at the code.  Two callers present the key id ["k:0"] with the
    limit 1 in the same minute: in every order in which the event loop runs
    them, both are allowed: the cleaning loop deletes the entry that each
    call has just counted, as it does when the calls come one by one. *)
Theorem colon_in_key_id_lets_every_caller_in calls :
  Permutation calls [("k:0"%string, 1); ("k:0"%string, 1)] ->
  fst (check_rate_limits calls sample_world) = Ok [true; true] /\
  allowed [true; true] = 2.
Proof.
  intros Hperm. symmetry in Hperm. apply Permutation_length_2_inv in Hperm.
  destruct Hperm as [-> | ->]; split; vm_compute; reflexivity.
Qed.

Lemma colon_in_key_id_lets_every_caller_in_witness :
  fst (check_rate_limits [("k:0"%string, 1); ("k:0"%string, 1)] sample_world) = Ok [true; true] /\
  allowed [true; true] = 2.
Proof.
  apply (colon_in_key_id_lets_every_caller_in [("k:0"%string, 1); ("k:0"%string, 1)]).
  apply Permutation_refl.
Defined.

(* ===================================================================== *)
(** ** What [validate_api_key] returns and what it leaves alone *)
(* ===================================================================== *)

Lemma keeps_ret {A X} (proj : world -> X) (a : A) : keeps proj (ret a).
Proof. intros w. reflexivity. Qed.

Lemma keeps_raise {A X} (proj : world -> X) e : keeps proj (@raise A e).
Proof. intros w. reflexivity. Qed.

Lemma keeps_lift {A X} (proj : world -> X) (r : result A) : keeps proj (lift r).
Proof. intros w. reflexivity. Qed.

Lemma keeps_get_db {X} (proj : world -> X) : keeps proj get_db.
Proof. intros w. reflexivity. Qed.

Lemma keeps_log {X} (proj : world -> X) l msg : blind_to_reads proj -> keeps proj (log l msg).
Proof. intros (H & _ & _) w. apply H. Qed.

Lemma keeps_time_time {X} (proj : world -> X) : blind_to_reads proj -> keeps proj time_time.
Proof. intros (_ & H & _) w. apply H. Qed.

Lemma keeps_store_request {X} (proj : world -> X) :
  blind_to_reads proj -> keeps proj store_request.
Proof.
  intros (_ & _ & H) w. unfold store_request.
  destruct (outages w) as [|[|] rest]; cbn [snd]; auto.
Qed.

Lemma keeps_bind {A B X} (proj : world -> X) (m : M A) (k : A -> M B) :
  keeps proj m -> (forall a, keeps proj (k a)) -> keeps proj (x <- m ;; k x).
Proof.
  intros Hm Hk w. unfold bind. specialize (Hm w).
  destruct (m w) as [[a|e] w1]; cbn [snd] in *; [| exact Hm].
  rewrite Hk. exact Hm.
Qed.

Lemma keeps_try_except {A X} (proj : world -> X) (body : M A) handler :
  keeps proj body -> (forall e, keeps proj (handler e)) -> keeps proj (try_except body handler).
Proof.
  intros Hm Hk w. unfold try_except. specialize (Hm w).
  destruct (body w) as [[a|e] w1]; cbn [snd] in *; [exact Hm |].
  rewrite Hk. exact Hm.
Qed.

Ltac keeps_all H :=
  repeat first
    [ apply keeps_bind; [| intros ?]
    | apply keeps_try_except; [| intros ?]
    | apply keeps_ret | apply keeps_raise | apply keeps_lift | apply keeps_get_db
    | apply keeps_log; exact H
    | apply keeps_time_time; exact H
    | apply keeps_store_request; exact H
    | match goal with |- keeps _ (match ?x with _ => _ end) => destruct x end
    | match goal with |- keeps _ (if ?x then _ else _) => destruct x end ].

Lemma blind_stored_state : blind_to_reads stored_state.
Proof. repeat split. Qed.

Section Validation.

Variable fromisoformat : string -> option datetime.

Lemma keeps_validate_loop {X} (proj : world -> X) key_hash agent_id query :
  blind_to_reads proj -> keeps proj (validate_loop fromisoformat key_hash agent_id query).
Proof.
  intros H. induction query as [|d query IH]; cbn [validate_loop]; [keeps_all H |].
  destruct (match doc_key_hash d with
            | Some stored_hash => Py.truthy stored_hash && _secure_compare key_hash stored_hash
            | None => false
            end); [| exact IH].
  unfold has_expired, datetime_now_utc. keeps_all H.
Qed.

Lemma keeps_validate_api_key {X} (proj : world -> X) api_key agent_id :
  blind_to_reads proj -> keeps proj (validate_api_key fromisoformat api_key agent_id).
Proof.
  intros H. unfold validate_api_key, stream_active_keys.
  apply keeps_try_except; [| intros e; keeps_all H].
  apply keeps_bind; [keeps_all H | intros query]. apply keeps_validate_loop, H.
Qed.

(** X4.  [validate_api_key] returns for every key, agent and world, whatever
    the store does, and it only reads: the collections, the rate-limit cache
    and the tasks are as before. *)
Theorem validate_api_key_only_reads api_key agent_id w :
  exists key_doc w',
    validate_api_key fromisoformat api_key agent_id w = (Ok key_doc, w') /\
    db w' = db w /\ rate_limit_cache w' = rate_limit_cache w /\ tasks w' = tasks w.
Proof.
  destruct (validate_api_key_returns fromisoformat api_key agent_id w) as (key_doc & w' & Hrun).
  exists key_doc, w'. split; [exact Hrun |].
  pose proof (keeps_validate_api_key stored_state api_key agent_id blind_stored_state w) as Hkeep.
  rewrite Hrun in Hkeep. unfold stored_state in Hkeep. cbn [snd] in Hkeep.
  inversion Hkeep. auto.
Qed.

Lemma has_expired_false_inv d w w' :
  has_expired fromisoformat d w = (Ok false, w') ->
  not_expired fromisoformat (utc_now w) d = true.
Proof.
  unfold has_expired, not_expired. destruct (doc_expires_at d) as [v|]; [| reflexivity].
  destruct (expires_truthy v); cbn [negb orb]; [| reflexivity].
  destruct v as [s|t]; cbn [expiry_instant].
  - destruct (fromisoformat (Py.replace "Z" "+00:00" s)) as [[wl [offset|]]|];
      unfold bind, ret, raise, datetime_now_utc, time_time, lift, datetime_gt;
      cbn [wall tzinfo]; intros H; inversion H as [[Hlt Hw]].
    apply Z.ltb_ge in Hlt. apply Z.leb_le. unfold utc_now.
    rewrite Z.sub_0_r in Hlt. try (rewrite Z.sub_0_r in Hlt). exact Hlt.
  - unfold bind, ret, datetime_now_utc, time_time, lift, datetime_gt, replace_tzinfo_utc;
      cbn [wall tzinfo]; intros H; inversion H as [[Hlt Hw]].
    apply Z.ltb_ge in Hlt. apply Z.leb_le. unfold utc_now.
    rewrite Z.sub_0_r in Hlt. try (rewrite Z.sub_0_r in Hlt). exact Hlt.
Qed.

Lemma validate_loop_sound key_hash agent_id query : forall w d w',
  validate_loop fromisoformat key_hash agent_id query w = (Ok (Some d), w') ->
  In d query /\ doc_key_hash d = Some key_hash /\
  not_expired fromisoformat (utc_now w) d = true.
Proof.
  induction query as [|doc query IH]; intros w d w' H; cbn [validate_loop] in H.
  - unfold bind, log, ret in H. discriminate.
  - destruct (doc_key_hash doc) as [stored_hash|] eqn:Hhash.
    + destruct (Py.truthy stored_hash && _secure_compare key_hash stored_hash) eqn:Hcmp.
      * apply andb_prop in Hcmp as [_ Hcmp]. apply secure_compare_eq in Hcmp. subst stored_hash.
        unfold bind at 1 in H.
        destruct (has_expired fromisoformat doc w) as [[[|]|e] w1] eqn:Hexp;
          unfold bind, log, ret in H; try discriminate.
        inversion H; subst d. split; [left; reflexivity |]. split; [exact Hhash |].
        eapply has_expired_false_inv, Hexp.
      * destruct (IH _ _ _ H) as (Hin & Hh & He). auto using in_cons.
    + destruct (IH _ _ _ H) as (Hin & Hh & He). auto using in_cons.
Qed.

Lemma validate_api_key_Some_inv api_key agent_id w d :
  fst (validate_api_key fromisoformat api_key agent_id w) = Ok (Some d) ->
  In d (api_keys (db w)) /\
  doc_agent_id d = agent_id /\ doc_status d = "active"%string /\
  doc_key_hash d = Some (sha256_hexdigest api_key) /\
  not_expired fromisoformat (utc_now w) d = true.
Proof.
  unfold validate_api_key, try_except, bind at 1, stream_active_keys, bind at 1, store_request.
  intros H.
  assert (Hloop : exists w0 w', clock w0 = clock w /\ reads w0 = reads w /\
            validate_loop fromisoformat (sha256_hexdigest api_key) agent_id
                          (active_keys agent_id w) w0 = (Ok (Some d), w')).
  { destruct (outages w) as [|[|] rest]; cbn in H; try discriminate.
    - exists w. fold (active_keys agent_id w) in H.
      destruct (validate_loop _ _ _ _ w) as [[r|e] w'] eqn:E; cbn in H; [| discriminate].
      inversion H; subst r. eauto.
    - exists (set_outages rest w).
      change (List.filter _ (api_keys (db (set_outages rest w)))) with (active_keys agent_id w) in H.
      destruct (validate_loop _ _ _ _ (set_outages rest w)) as [[r|e] w'] eqn:E; cbn in H;
        [| discriminate].
      inversion H; subst r. eauto. }
  destruct Hloop as (w0 & w' & Hc & Hr & Hloop).
  apply validate_loop_sound in Hloop as (Hin & Hhash & Hexp).
  unfold active_keys in Hin. apply filter_In in Hin as [Hin Hq].
  apply andb_prop in Hq as [Ha Hs]. apply String.eqb_eq in Ha, Hs.
  assert (Hnow : utc_now w0 = utc_now w) by (unfold utc_now; rewrite Hc, Hr; reflexivity).
  rewrite Hnow in Hexp. auto.
Qed.

(** X1.  Whatever [validate_api_key] returns is a document of the store that
    belongs to the agent, has the status active, carries the SHA-256 hex
    digest of the presented key as [key_hash], and has not expired at the
    time of the call. *)
Theorem validate_api_key_sound api_key agent_id w d :
  fst (validate_api_key fromisoformat api_key agent_id w) = Ok (Some d) ->
  In d (api_keys (db w)) /\
  doc_agent_id d = agent_id /\ doc_status d = "active"%string /\
  doc_key_hash d = Some (sha256_hexdigest api_key) /\
  not_expired fromisoformat (utc_now w) d = true.
Proof. apply validate_api_key_Some_inv. Qed.

(** X2.  A key whose digest is stored only for other agents, or only with a
    status other than active, or not at all, is refused. *)
Theorem validate_api_key_refuses_foreign_keys api_key agent_id w :
  (forall d, In d (api_keys (db w)) ->
             doc_key_hash d = Some (sha256_hexdigest api_key) ->
             doc_agent_id d <> agent_id \/ doc_status d <> "active"%string) ->
  fst (validate_api_key fromisoformat api_key agent_id w) = Ok None.
Proof.
  intros H.
  destruct (fst (validate_api_key fromisoformat api_key agent_id w)) as [[d|]|e] eqn:E.
  - apply validate_api_key_Some_inv in E as (Hin & Ha & Hs & Hh & _).
    destruct (H d Hin Hh); contradiction.
  - reflexivity.
  - destruct (validate_api_key_returns fromisoformat api_key agent_id w) as (r & w' & Hrun).
    rewrite Hrun in E. discriminate.
Qed.

End Validation.

(* ===================================================================== *)
(** ** The keys and the window of the rate limiter *)
(* ===================================================================== *)

(** X5.  For a key id without [':'] the cleaning loop reads back from the
    cache key the minute that [check_rate_limit] wrote into it, and two
    pairs of such an id and a minute never share a cache key, hence never a
    counter. *)
Theorem cache_key_round_trip api_key_id minute_window :
  colon_free api_key_id = true ->
  cache_minute_of (cache_key_of api_key_id minute_window) = Ok minute_window /\
  forall api_key_id' minute_window',
    colon_free api_key_id' = true ->
    cache_key_of api_key_id minute_window = cache_key_of api_key_id' minute_window' ->
    api_key_id = api_key_id' /\ minute_window = minute_window'.
Proof.
  intros H. split; [apply cache_minute_of_cache_key, H |].
  intros id' m' H' Heq. apply cache_key_inj; assumption.
Qed.

Lemma check_rate_limits_app calls1 : forall calls2 w answers1 w1 answers2 w2,
  check_rate_limits calls1 w = (Ok answers1, w1) ->
  check_rate_limits calls2 w1 = (Ok answers2, w2) ->
  check_rate_limits (calls1 ++ calls2) w = (Ok (answers1 ++ answers2), w2).
Proof.
  induction calls1 as [|[id L] calls1 IH]; intros calls2 w answers1 w1 answers2 w2 H1 H2.
  - cbn in H1. inversion H1; subst. exact H2.
  - cbn [check_rate_limits app] in *. unfold bind at 1 in H1. unfold bind at 1.
    destruct (check_rate_limit id L w) as [[a|e] wa]; [| discriminate].
    unfold bind at 1 in H1. unfold bind at 1.
    destruct (check_rate_limits calls1 wa) as [[as1|e] wb] eqn:E; [| discriminate].
    unfold ret in H1. inversion H1; subst.
    rewrite (IH calls2 wa as1 w1 answers2 w2 E H2). reflexivity.
Qed.

(** X8.  The window is fixed: [L] calls at the end of minute [m] and [L] calls
    at the start of minute [m + 1] are all allowed, twice the limit in a
    row. *)
Theorem burst_across_the_minute api_key_id L m w :
  colon_free api_key_id = true ->
  0 <= L ->
  readable (rate_limit_cache w) ->
  count_of (rate_limit_cache w) (cache_key_of api_key_id m) = 0 ->
  count_of (rate_limit_cache w) (cache_key_of api_key_id (m + 1)) = 0 ->
  readings_in m (Z.to_nat L) w ->
  readings_in (m + 1) (Z.to_nat L) (set_reads (reads w + Z.to_nat L) w) ->
  exists w',
    check_rate_limits (repeat (api_key_id, L) (Z.to_nat L + Z.to_nat L)) w
    = (Ok (repeat true (Z.to_nat L + Z.to_nat L)), w').
Proof.
  intros Hid HL Hread H0 H1 Hin Hin'.
  destruct (allowed_calls api_key_id L m (Z.to_nat L) w Hid Hread Hin) as
    (w1 & Hcalls1 & Hc1 & Hr1 & Hread1 & _ & Hother1); [rewrite H0; lia |].
  destruct (allowed_calls api_key_id L (m + 1) (Z.to_nat L) w1 Hid Hread1) as
    (w2 & Hcalls2 & _).
  { intros i Hi. rewrite Hc1, Hr1. apply (Hin' i Hi). }
  { rewrite (Hother1 (m + 1)), H1 by lia. lia. }
  exists w2. rewrite !repeat_app.
  apply (check_rate_limits_app _ _ _ _ _ _ _ Hcalls1 Hcalls2).
Qed.

(* ===================================================================== *)
(** ** The cache holds two minutes at most *)
(* ===================================================================== *)

Lemma in_window_readable m c : in_window m c -> readable c.
Proof. intros H k v Hk. destruct (H k v Hk) as (cm & Hcm & _). exists cm. exact Hcm. Qed.

Lemma in_window_empty m : in_window m ∅.
Proof. intros k v H. rewrite lookup_empty in H. discriminate. Qed.

Lemma check_rate_limit_in_window id L m0 w :
  colon_free id = true ->
  0 < L ->
  in_window m0 (rate_limit_cache w) ->
  m0 <= bucket w ->
  exists answer w',
    check_rate_limit id L w = (Ok answer, w') /\
    clock w' = clock w /\ reads w' = S (reads w) /\
    in_window (bucket w) (rate_limit_cache w').
Proof.
  intros Hid HL Hwin Hm.
  set (m := bucket w) in *. set (c := rate_limit_cache w) in *.
  set (key := cache_key_of id m).
  pose proof (cache_minute_of_cache_key id m Hid) as Hkey. fold key in Hkey.
  destruct (Z.lt_ge_cases (count_of c key) L) as [Hlt | Hge].
  - assert (Hr : readable (<[key := count_of c key + 1]> c)).
    { apply readable_insert; [eapply in_window_readable, Hwin | exists m; exact Hkey]. }
    exists true. eexists. split; [apply check_rate_limit_allowed; assumption |].
    split; [reflexivity |]. split; [reflexivity |].
    cbn [rate_limit_cache set_cache]. fold m. fold c. fold key.
    intros k v Hk. apply map_lookup_filter_Some in Hk as [Hk Hfresh]. cbn [fst] in Hfresh.
    apply lookup_insert_Some in Hk as [[<- _] | [_ Hk]].
    + exists m. split; [exact Hkey | lia].
    + destruct (Hwin k v Hk) as (cm & Hcm & Hlo & Hhi). exists cm.
      unfold fresh_key in Hfresh. rewrite Hcm in Hfresh.
      apply negb_true_iff, Z.ltb_ge in Hfresh. split; [exact Hcm | lia].
  - exists false. eexists. split; [apply check_rate_limit_throttled; assumption |].
    split; [reflexivity |]. split; [reflexivity |].
    cbn [rate_limit_cache set_cache]. fold m. fold c. fold key.
    destruct (c !! key) as [v|] eqn:Hk.
    + destruct (Hwin key v Hk) as (cm & Hcm & Hlo & Hhi).
      rewrite Hkey in Hcm. inversion Hcm; subst cm.
      assert (m = m0) by lia. subst m0. exact Hwin.
    + unfold count_of in Hge. rewrite Hk in Hge. cbn in Hge. lia.
Qed.

(** X9.  With limits above zero, key ids without [':'] and a clock that does
    not step back to an earlier minute, the cache never outgrows two
    minutes: every call of a run returns, and after the run every entry of
    the cache is of the minute of the last call or of the minute before. *)
Theorem cache_holds_two_minutes calls : forall m0 w,
  Forall (fun call => colon_free (fst call) = true /\ 0 < snd call) calls ->
  in_window m0 (rate_limit_cache w) ->
  m0 <= bucket w ->
  clock_moves_on (List.length calls) w ->
  calls <> [] ->
  exists answers w',
    check_rate_limits calls w = (Ok answers, w') /\
    in_window (minute_of (clock w (reads w + (List.length calls - 1))%nat))
              (rate_limit_cache w').
Proof.
  induction calls as [|[id L] calls IH]; intros m0 w Hcalls Hwin Hm Hclock Hne; [congruence |].
  inversion Hcalls as [|? ? [Hid HL] Hcalls']; subst. cbn [fst snd] in Hid, HL.
  destruct (check_rate_limit_in_window id L m0 w Hid HL Hwin Hm) as
    (answer & w1 & Hcall & Hc & Hr & Hwin1).
  rewrite (check_rate_limits_cons _ _ _ _ _ _ Hcall).
  destruct calls as [|call calls].
  - exists [answer], w1. cbn [check_rate_limits]. split; [reflexivity |].
    cbn [List.length]. replace (reads w + (1 - 1))%nat with (reads w) by lia. exact Hwin1.
  - destruct (IH (bucket w) w1 Hcalls' Hwin1) as (answers & w' & Hrest & Hwin').
    + unfold bucket. rewrite Hc, Hr.
      replace (S (reads w)) with (reads w + 1)%nat by lia.
      rewrite <- (Nat.add_0_r (reads w)) at 1. apply Hclock. cbn [List.length]. lia.
    + intros i Hi. rewrite Hc, Hr.
      replace (S (reads w) + i)%nat with (reads w + S i)%nat by lia.
      replace (S (reads w) + S i)%nat with (reads w + S (S i))%nat by lia.
      apply Hclock. cbn [List.length] in *. lia.
    + discriminate.
    + exists (answer :: answers), w'. rewrite (bind_Ok _ _ _ _ _ Hrest).
      split; [reflexivity |]. rewrite Hc, Hr in Hwin'. cbn [List.length] in *.
      replace (reads w + (S (S (List.length calls)) - 1))%nat
        with (S (reads w) + (S (List.length calls) - 1))%nat by lia.
      exact Hwin'.
Qed.

(* ===================================================================== *)
(** ** A key that the cleaning loop cannot read *)
(* ===================================================================== *)






(* ===================================================================== *)
(** ** What [track_usage] writes *)
(* ===================================================================== *)

Lemma update_api_key_answered api_key_id w :
  hd_error (outages w) <> Some true ->
  has_key api_key_id (db w) = true ->
  update_api_key api_key_id w
  = (Ok tt,
     set_db (mk_firestore (count_call api_key_id (utc_date w) (api_keys (db w)))
                          (api_key_usage_logs (db w)) (agent_usage_summary (db w)))
            (set_outages (tl (outages w)) w)).
Proof.
  intros Hout Hkey. unfold has_key in Hkey.
  unfold update_api_key, bind, store_request, server_timestamp, get_db, put_db.
  destruct w as [d c cl r o t l]. cbn in *.
  destruct o as [|[] o]; cbn in *; [| congruence |]; rewrite Hkey; reflexivity.
Qed.

Lemma update_api_key_fails api_key_id w :
  hd_error (outages w) = Some true \/ has_key api_key_id (db w) = false ->
  exists e, update_api_key api_key_id w = (Raise e, set_outages (tl (outages w)) w).
Proof.
  intros H. unfold has_key in H.
  unfold update_api_key, bind, store_request, server_timestamp, get_db, put_db, raise.
  destruct w as [d c cl r o t l]. cbn in *.
  destruct o as [|[] o]; cbn in *.
  - destruct H as [H | H]; [discriminate |]. rewrite H. exists NotFound. reflexivity.
  - exists GoogleAPICallError. reflexivity.
  - destruct H as [H | H]; [congruence |]. rewrite H. exists NotFound. reflexivity.
Qed.

Lemma billing_answered agent_id tokens cost w :
  outages w = [] ->
  _update_agent_billing_summary agent_id tokens cost w
  = (Ok tt,
     set_db (mk_firestore (api_keys (db w)) (api_key_usage_logs (db w))
                          (billed agent_id tokens cost (utc_date w) (agent_usage_summary (db w))))
            w).
Proof.
  intros Hout. destruct w as [d c cl r o t l]. cbn in Hout. subst o.
  unfold _update_agent_billing_summary, try_except, bind, store_request, get_db, billed.
  cbn [outages db].
  destruct (agent_usage_summary d !! agent_id) as [s|]; reflexivity.
Qed.

Lemma track_usage_answered api_key_id usage w :
  outages w = [] ->
  has_key api_key_id (db w) = true ->
  track_usage api_key_id usage w
  = (Ok tt,
     set_logged ((INFO, "Usage tracked for API key " +:+ api_key_id) :: logged w)
       (set_db (mk_firestore
                  (count_call api_key_id (utc_date w) (api_keys (db w)))
                  (api_key_usage_logs (db w) ++ [usage_log_of api_key_id usage (utc_date w)])
                  (if bears_cost usage then
                     billed (ud_agent_id usage) (default 0 (ud_tokens_used usage))
                            (default 0%Q (ud_cost_usd usage)) (utc_date (later w))
                            (agent_usage_summary (db w))
                   else agent_usage_summary (db w)))
               (later w))).
Proof.
  intros Hout Hkey. unfold track_usage, try_except.
  rewrite (bind_Ok _ _ _ _ _ (update_api_key_answered api_key_id w
             ltac:(rewrite Hout; discriminate) Hkey)).
  rewrite Hout. destruct w as [d c cl r o t l]. cbn in Hout, Hkey. subst o.
  unfold bears_cost.
  cbv [bind datetime_now_utc time_time ret add_usage_log store_request get_db put_db log
       set_reads set_db set_outages set_logged tl
       db rate_limit_cache clock reads outages tasks logged].
  destruct (negb (Qle_bool (default 0%Q (ud_cost_usd usage)) 0)).
  - rewrite billing_answered by reflexivity. reflexivity.
  - reflexivity.
Qed.

Lemma doc_id_counted_call now doc : doc_id (counted_call now doc) = doc_id doc.
Proof. reflexivity. Qed.

Lemma find_count_call_same id now docs :
  List.find (fun doc => String.eqb (doc_id doc) id) (count_call id now docs)
  = counted_call now <$> List.find (fun doc => String.eqb (doc_id doc) id) docs.
Proof.
  induction docs as [|doc docs IH]; [reflexivity |]. cbn [count_call map List.find].
  destruct (String.eqb (doc_id doc) id) eqn:E.
  - rewrite doc_id_counted_call, E. reflexivity.
  - rewrite E. exact IH.
Qed.

Lemma total_calls_of_count_call id now d logs sums :
  total_calls_of id (mk_firestore (count_call id now (api_keys d)) logs sums)
  = Z.succ <$> total_calls_of id d.
Proof.
  unfold total_calls_of. cbn [api_keys]. rewrite find_count_call_same.
  destruct (List.find _ (api_keys d)) as [doc|]; [| reflexivity].
  cbn. f_equal.
Qed.

Lemma has_key_count_call id now d logs sums :
  has_key id (mk_firestore (count_call id now (api_keys d)) logs sums) = has_key id d.
Proof.
  unfold has_key. cbn [api_keys]. induction (api_keys d) as [|doc docs IH]; [reflexivity |].
  cbn [count_call map existsb]. fold (count_call id now docs). rewrite IH. f_equal.
  destruct (String.eqb (doc_id doc) id) eqn:E; [rewrite doc_id_counted_call |]; exact E.
Qed.

Lemma count_call_others id now docs doc :
  doc_id doc <> id -> In doc (count_call id now docs) <-> In doc docs.
Proof.
  intros Hne. unfold count_call. rewrite in_map_iff. split.
  - intros (doc0 & Heq & Hin). destruct (String.eqb (doc_id doc0) id) eqn:E.
    + apply String.eqb_eq in E. subst doc. rewrite doc_id_counted_call in Hne. contradiction.
    + subst doc0. exact Hin.
  - intros Hin. exists doc. split; [| exact Hin].
    apply String.eqb_neq in Hne. rewrite Hne. reflexivity.
Qed.

Lemma billed_others agent tokens cost now sums a :
  a <> agent -> billed agent tokens cost now sums !! a = sums !! a.
Proof.
  intros Hne. unfold billed.
  destruct (sums !! agent); apply lookup_insert_ne; congruence.
Qed.

(** X11.  When the store answers and the key has its document, [track_usage]
    counts exactly one call: the [total_calls] of the key grows by one, the
    documents of the other keys stay as they were, the usage log grows by
    the one entry of this call, with 0 for tokens and cost that the
    response did not report, and a summary changes only for the agent of
    the call and only when the call bears a cost. *)
Theorem track_usage_counts_one_call api_key_id usage w :
  outages w = [] ->
  has_key api_key_id (db w) = true ->
  let d := db w in
  let d' := db (snd (track_usage api_key_id usage w)) in
  total_calls_of api_key_id d' = Z.succ <$> total_calls_of api_key_id d /\
  List.length (api_keys d') = List.length (api_keys d) /\
  (forall doc, doc_id doc <> api_key_id -> In doc (api_keys d') <-> In doc (api_keys d)) /\
  api_key_usage_logs d'
  = api_key_usage_logs d ++ [usage_log_of api_key_id usage (utc_date w)] /\
  (forall agent_id, bears_cost usage = false \/ agent_id <> ud_agent_id usage ->
                    agent_usage_summary d' !! agent_id = agent_usage_summary d !! agent_id) /\
  last_logged (snd (track_usage api_key_id usage w))
  = Some (INFO, "Usage tracked for API key " +:+ api_key_id).
Proof.
  intros Hout Hkey d d'. subst d'. rewrite (track_usage_answered _ _ _ Hout Hkey).
  cbn [snd db set_logged set_db]. fold d.
  split; [apply total_calls_of_count_call |].
  split; [cbn [api_keys]; unfold count_call; apply length_map |].
  split; [intros doc Hne; cbn [api_keys]; apply count_call_others, Hne |].
  split; [reflexivity |].
  split; [| reflexivity].
  intros a Ha. cbn [agent_usage_summary].
  destruct (bears_cost usage); [| reflexivity].
  destruct Ha as [Ha | Ha]; [discriminate |]. apply billed_others, Ha.
Qed.

(** X12.  When the update of the counter fails, because the store request fails
    or because the key has no document any more, [track_usage] writes
    nothing: the collections stay as they were, no entry reaches the usage
    log, and the failure is the latest record of the log. *)
Theorem track_usage_failed_update_writes_nothing api_key_id usage w :
  hd_error (outages w) = Some true \/ has_key api_key_id (db w) = false ->
  fst (track_usage api_key_id usage w) = Ok tt /\
  db (snd (track_usage api_key_id usage w)) = db w /\
  exists e,
    logged (snd (track_usage api_key_id usage w))
    = (ERROR, "Failed to track usage for API key " +:+ api_key_id +:+ ": " +:+ exn_str e)
      :: logged w.
Proof.
  intros H. destruct (update_api_key_fails api_key_id w H) as [e He].
  unfold track_usage.
  rewrite (try_except_Raise _ _ _ _ _ (bind_Raise _ _ _ _ _ He)).
  split; [reflexivity |]. split; [reflexivity |]. exists e. reflexivity.
Qed.

(** X13.  The two writes of [track_usage] are not one transaction: when the
    store takes the update of the counter and fails at the append to the
    usage log, the call is counted in [total_calls], no entry for it is in
    the usage log, no summary changes, and the failure is logged. *)
Theorem track_usage_counts_without_log_entry api_key_id usage w rest :
  outages w = false :: true :: rest ->
  has_key api_key_id (db w) = true ->
  let d := db w in
  let d' := db (snd (track_usage api_key_id usage w)) in
  total_calls_of api_key_id d' = Z.succ <$> total_calls_of api_key_id d /\
  api_key_usage_logs d' = api_key_usage_logs d /\
  agent_usage_summary d' = agent_usage_summary d /\
  logged (snd (track_usage api_key_id usage w))
  = (ERROR, "Failed to track usage for API key " +:+ api_key_id +:+ ": "
            +:+ exn_str GoogleAPICallError) :: logged w.
Proof.
  intros Hout Hkey d d'. subst d'. unfold track_usage, try_except.
  rewrite (bind_Ok _ _ _ _ _ (update_api_key_answered api_key_id w
             ltac:(rewrite Hout; discriminate) Hkey)).
  rewrite Hout. destruct w as [d0 c cl r o t l]. cbn in Hout, Hkey, d. subst o d.
  cbv [bind datetime_now_utc time_time ret add_usage_log store_request get_db put_db log
       set_reads set_db set_outages set_logged tl snd
       db rate_limit_cache clock reads outages tasks logged].
  split; [apply total_calls_of_count_call |]. repeat split.
Qed.

Lemma billing_unanswered agent_id tokens cost w rest :
  outages w = true :: rest \/ outages w = false :: true :: rest ->
  _update_agent_billing_summary agent_id tokens cost w
  = (Ok tt,
     set_logged ((ERROR, "Failed to update agent billing summary: "
                         +:+ exn_str GoogleAPICallError) :: logged w)
                (set_outages rest w)).
Proof.
  intros Hout. destruct w as [d c cl r o t l]. cbn in Hout.
  unfold _update_agent_billing_summary.
  destruct Hout as [-> | ->];
    cbv [try_except bind store_request get_db set_outages
         db rate_limit_cache clock reads outages tasks logged]; [reflexivity |].
  destruct (agent_usage_summary d !! agent_id); reflexivity.
Qed.

(** X14.  A failure at the billing summary stays inside
    [_update_agent_billing_summary], whether the store fails at the read
    of the summary or at its write: the call is counted and its entry is in
    the usage log, no summary changes, and [track_usage] still reports the
    usage as tracked, after the record of the failure. *)
Theorem track_usage_hides_billing_failure api_key_id usage w rest :
  outages w = false :: false :: true :: rest \/
  outages w = false :: false :: false :: true :: rest ->
  has_key api_key_id (db w) = true ->
  bears_cost usage = true ->
  let d := db w in
  let d' := db (snd (track_usage api_key_id usage w)) in
  total_calls_of api_key_id d' = Z.succ <$> total_calls_of api_key_id d /\
  api_key_usage_logs d'
  = api_key_usage_logs d ++ [usage_log_of api_key_id usage (utc_date w)] /\
  agent_usage_summary d' = agent_usage_summary d /\
  logged (snd (track_usage api_key_id usage w))
  = (INFO, "Usage tracked for API key " +:+ api_key_id)
    :: (ERROR, "Failed to update agent billing summary: " +:+ exn_str GoogleAPICallError)
    :: logged w.
Proof.
  intros Hout Hkey Hcost d d'. subst d'. unfold track_usage, try_except.
  rewrite (bind_Ok _ _ _ _ _ (update_api_key_answered api_key_id w
             ltac:(destruct Hout as [Hout | Hout]; rewrite Hout; discriminate) Hkey)).
  unfold bears_cost in Hcost.
  destruct w as [d0 c cl r o t l]. cbn in Hout, Hkey, d. subst d.
  assert (Ho : exists script, o = false :: false :: script /\
                              (script = true :: rest \/ script = false :: true :: rest)).
  { destruct Hout as [-> | ->]; eexists; (split; [reflexivity |]); [left | right]; reflexivity. }
  destruct Ho as (script & -> & Hscript). clear Hout.
  cbv [bind datetime_now_utc time_time ret add_usage_log store_request get_db put_db
       set_reads set_db set_outages tl
       db rate_limit_cache clock reads outages tasks logged].
  rewrite Hcost.
  erewrite billing_unanswered by exact Hscript.
  cbv [log set_logged set_outages snd db rate_limit_cache clock reads outages tasks logged].
  split; [apply total_calls_of_count_call |]. repeat split.
Qed.

(* ===================================================================== *)
(** ** The billing summary over many calls *)
(* ===================================================================== *)

Lemma billed_at agent tokens cost now sums :
  exists s, billed agent tokens cost now sums !! agent = Some s /\
    totalMessages s = default 0 (totalMessages <$> sums !! agent) + 1 /\
    totalTokens s = default 0 (totalTokens <$> sums !! agent) + tokens /\
    apiKeyUsage s = default 0 (apiKeyUsage <$> sums !! agent) + 1 /\
    webUsage s = default 0 (webUsage <$> sums !! agent).
Proof.
  unfold billed. destruct (sums !! agent) as [s|] eqn:E.
  - eexists. split; [apply lookup_insert_eq |]. cbn. repeat split; reflexivity.
  - eexists. split; [apply lookup_insert_eq |]. cbn. repeat split; reflexivity.
Qed.

Lemma track_usages_add_up api_key_id agent_id usages : forall w,
  outages w = [] ->
  has_key api_key_id (db w) = true ->
  Forall (fun usage => bears_cost usage = true /\ ud_agent_id usage = agent_id) usages ->
  let d := db w in
  let d' := db (snd (track_usages api_key_id usages w)) in
  let before := agent_usage_summary d !! agent_id in
  let after := agent_usage_summary d' !! agent_id in
  let k := Z.of_nat (List.length usages) in
  (usages <> [] -> is_Some after) /\
  default 0 (totalMessages <$> after) = default 0 (totalMessages <$> before) + k /\
  default 0 (totalTokens <$> after) = default 0 (totalTokens <$> before) + tokens_of usages /\
  default 0 (apiKeyUsage <$> after) = default 0 (apiKeyUsage <$> before) + k /\
  default 0 (webUsage <$> after) = default 0 (webUsage <$> before) /\
  total_calls_of api_key_id d' = (fun n => n + k) <$> total_calls_of api_key_id d /\
  Z.of_nat (List.length (api_key_usage_logs d'))
  = Z.of_nat (List.length (api_key_usage_logs d)) + k.
Proof.
  induction usages as [|usage usages IH]; intros w Hout Hkey Hall; cbv zeta.
  - cbn [track_usages ret snd List.length tokens_of fold_right Z.of_nat].
    split; [congruence |]. rewrite !Z.add_0_r.
    repeat split; try reflexivity.
    destruct (total_calls_of api_key_id (db w)) as [n|]; cbn; [rewrite Z.add_0_r |]; reflexivity.
  - inversion Hall as [|? ? [Hcost Hagent] Hall']; subst.
    cbn [track_usages]. rewrite (bind_Ok _ _ _ _ _ (track_usage_answered _ usage _ Hout Hkey)).
    rewrite Hcost.
    match goal with |- context [track_usages _ _ ?w1] => set (w1' := w1) end.
    assert (Hout1 : outages w1' = []) by exact Hout.
    assert (Hkey1 : has_key api_key_id (db w1') = true).
    { subst w1'. cbn [db set_logged set_db]. rewrite has_key_count_call. exact Hkey. }
    specialize (IH w1' Hout1 Hkey1 Hall'). cbv zeta in IH.
    destruct IH as (Hsome & Hm & Ht & Ha & Hw & Hcalls & Hlogs).
    assert (Hdb : db w1' = mk_firestore
              (count_call api_key_id (utc_date w) (api_keys (db w)))
              (api_key_usage_logs (db w) ++ [usage_log_of api_key_id usage (utc_date w)])
              (billed (ud_agent_id usage) (default 0 (ud_tokens_used usage))
                      (default 0%Q (ud_cost_usd usage)) (utc_date (later w))
                      (agent_usage_summary (db w)))) by reflexivity.
    destruct (billed_at (ud_agent_id usage) (default 0 (ud_tokens_used usage))
                (default 0%Q (ud_cost_usd usage)) (utc_date (later w))
                (agent_usage_summary (db w))) as (s & Hs & Hs1 & Hs2 & Hs4 & Hs5).
    assert (Hfirst : is_Some (agent_usage_summary (db (snd (track_usages api_key_id usages w1')))
                              !! ud_agent_id usage)).
    { destruct usages as [|u us]; [| apply Hsome; discriminate].
      cbn [track_usages ret snd]. rewrite Hdb. cbn [agent_usage_summary]. rewrite Hs. eauto. }
    rewrite Hdb in Hm, Ht, Ha, Hw, Hcalls, Hlogs.
    cbn [agent_usage_summary api_key_usage_logs] in Hm, Ht, Ha, Hw, Hcalls, Hlogs.
    rewrite Hs in Hm, Ht, Ha, Hw.
    cbn [fmap option_fmap option_map default] in Hm, Ht, Ha, Hw.
    rewrite total_calls_of_count_call in Hcalls.
    rewrite List.length_app in Hlogs. cbn [List.length] in Hlogs.
    cbn [List.length tokens_of fold_right].
    fold (tokens_of usages).
    split; [intros _; exact Hfirst |].
    change (id (totalMessages s)) with (totalMessages s) in Hm.
    change (id (totalTokens s)) with (totalTokens s) in Ht.
    change (id (apiKeyUsage s)) with (apiKeyUsage s) in Ha.
    change (id (webUsage s)) with (webUsage s) in Hw.
    split; [rewrite Hm, Hs1; lia |].
    split; [rewrite Ht, Hs2; lia |].
    split; [rewrite Ha, Hs4; lia |].
    split; [rewrite Hw, Hs5; reflexivity |].
    split; [| lia].
    rewrite Hcalls. destruct (total_calls_of api_key_id (db w)) as [n|]; cbn; [f_equal; lia | reflexivity].
Qed.

(** X15.  Usage adds up.  After the tasks of [k] calls of one key that bear a
    cost for one agent, with the store answering, the summary of the agent
    exists and holds [k] more messages and API key calls and the sum of the
    reported tokens on top of what it held, [webUsage] as it was (0 when
    the summary is new); the key has [k] more [total_calls] and the usage
    log [k] more entries.  These are the integer counters; [totalCost] is a
    double that the store increments in double arithmetic, and nothing is
    stated of its sum. *)
Theorem usage_adds_up api_key_id agent_id usages w :
  outages w = [] ->
  has_key api_key_id (db w) = true ->
  Forall (fun usage => bears_cost usage = true /\ ud_agent_id usage = agent_id) usages ->
  usages <> [] ->
  let d := db w in
  let d' := db (snd (track_usages api_key_id usages w)) in
  let before := agent_usage_summary d !! agent_id in
  let k := Z.of_nat (List.length usages) in
  (exists s,
     agent_usage_summary d' !! agent_id = Some s /\
     totalMessages s = default 0 (totalMessages <$> before) + k /\
     totalTokens s = default 0 (totalTokens <$> before) + tokens_of usages /\
     apiKeyUsage s = default 0 (apiKeyUsage <$> before) + k /\
     webUsage s = default 0 (webUsage <$> before)) /\
  total_calls_of api_key_id d' = (fun n => n + k) <$> total_calls_of api_key_id d /\
  Z.of_nat (List.length (api_key_usage_logs d'))
  = Z.of_nat (List.length (api_key_usage_logs d)) + k.
Proof.
  intros Hout Hkey Hall Hne d d' before k.
  destruct (track_usages_add_up api_key_id agent_id usages w Hout Hkey Hall)
    as (Hsome & Hm & Ht & Ha & Hw & Hcalls & Hlogs).
  destruct (Hsome Hne) as [s Hs]. fold d' in Hs, Hm, Ht, Ha, Hw, Hcalls, Hlogs.
  rewrite Hs in Hm, Ht, Ha, Hw.
  split; [| split; assumption].
  exists s. split; [exact Hs |]. repeat split; assumption.
Qed.

(* ===================================================================== *)
(** ** The paths of [__call__] *)
(* ===================================================================== *)


Section Paths.

Variable fromisoformat : string -> option datetime.
Variable float : string -> option Q.


Lemma authenticated_unreadable_header agent_id api_key start_time request call_next
      w0 key_doc w1 w2 response w3 :
  validate_api_key fromisoformat api_key agent_id w0 = (Ok (Some key_doc), w1) ->
  check_rate_limit (doc_id key_doc) (default 100 (doc_rate_limit key_doc)) w1 = (Ok true, w2) ->
  call_next (with_identity key_doc request) w2 = (Ok response, w3) ->
  read_tokens response = None \/ read_cost float response = None ->
  authenticated fromisoformat float agent_id api_key start_time request call_next w0
  = (Raise ValueError, later w3).
Proof.
  intros Hv Hc Hn Hbad. unfold authenticated.
  rewrite (bind_Ok _ _ _ _ _ Hv). rewrite (bind_Ok _ _ _ _ _ Hc). cbn [negb].
  rewrite (bind_Ok _ _ _ _ _ Hn).
  unfold read_tokens, read_cost in Hbad.
  unfold bind at 1, time_time.
  destruct (header_get "X-Token-Count" (headers response)) as [text|].
  - destruct (Py.int text) as [n|]; [| reflexivity].
    destruct Hbad as [Hbad | Hbad]; [discriminate |].
    unfold bind at 1, ret at 1.
    destruct (header_get "X-Cost-USD" (headers response)) as [text'|]; [| discriminate].
    destruct (float text') as [x|]; [discriminate | reflexivity].
  - destruct Hbad as [Hbad | Hbad]; [discriminate |].
    unfold bind at 1, ret at 1.
    destruct (header_get "X-Cost-USD" (headers response)) as [text'|]; [| discriminate].
    destruct (float text') as [x|]; [discriminate | reflexivity].
Qed.


(** X20.  A response whose usage header cannot be read costs the client the
    answer: when [X-Token-Count] is no integer or [X-Cost-USD] no number,
    the handler has run and its effects stay, the client is answered 500,
    and no usage is recorded for the call. *)
Theorem unreadable_usage_header_answers_500 agent_id request call_next auth_header
        w key_doc w1 w2 response w3 :
  authorization request = Some auth_header ->
  Py.truthy auth_header && Py.startswith auth_header "Bearer ak_" = true ->
  validate_api_key fromisoformat (Py.slice_from 7 auth_header) agent_id (later w)
  = (Ok (Some key_doc), w1) ->
  check_rate_limit (doc_id key_doc) (default 100 (doc_rate_limit key_doc)) w1 = (Ok true, w2) ->
  call_next (with_identity key_doc request) w2 = (Ok response, w3) ->
  read_tokens response = None \/ read_cost float response = None ->
  let out := __call__ fromisoformat float agent_id request call_next w in
  fst out = Ok (JSONResponse 500 "API key validation failed") /\
  tasks (snd out) = tasks w3 /\ db (snd out) = db w3 /\
  logged (snd out)
  = (ERROR, "API key validation error: " +:+ exn_str ValueError) :: logged w3.
Proof.
  intros Hauth Hprefix Hv Hc Hn Hbad out. subst out.
  rewrite (call_with_api_key _ _ _ _ _ _ _ Hauth Hprefix).
  rewrite (try_except_Raise _ _ _ _ _
             (authenticated_unreadable_header _ _ _ _ _ _ _ _ _ _ _ Hv Hc Hn Hbad)).
  repeat split.
Qed.

(** X18.  A key that [validate_api_key] does not accept never reaches the
    handler: the answer is 401 whatever the handler is, the world after the
    request does not depend on the handler, and the collections, the
    rate-limit cache and the tasks are as before the request. *)
Theorem refused_key_never_reaches_the_handler agent_id request call_next auth_header w :
  authorization request = Some auth_header ->
  Py.truthy auth_header && Py.startswith auth_header "Bearer ak_" = true ->
  fst (validate_api_key fromisoformat (Py.slice_from 7 auth_header) agent_id (later w))
  = Ok None ->
  let out := __call__ fromisoformat float agent_id request call_next w in
  fst out = Ok (JSONResponse 401 "Invalid or inactive API key") /\
  (forall call_next', __call__ fromisoformat float agent_id request call_next' w = out) /\
  db (snd out) = db w /\ rate_limit_cache (snd out) = rate_limit_cache w /\
  tasks (snd out) = tasks w.
Proof.
  intros Hauth Hprefix Hv out.
  pose proof (keeps_validate_api_key fromisoformat stored_state (Py.slice_from 7 auth_header)
                agent_id blind_stored_state (later w)) as Hkeep.
  destruct (validate_api_key fromisoformat (Py.slice_from 7 auth_header) agent_id (later w))
    as [r w1] eqn:Hrun.
  cbn [fst snd] in Hv, Hkeep. subst r.
  assert (Hout : forall call_next',
             __call__ fromisoformat float agent_id request call_next' w
             = (Ok (JSONResponse 401 "Invalid or inactive API key"), w1)).
  { intros call_next'. rewrite (call_with_api_key _ _ _ _ _ _ _ Hauth Hprefix).
    apply try_except_Ok. unfold authenticated.
    fold (later w). rewrite (bind_Ok _ _ _ _ _ Hrun). reflexivity. }
  subst out. rewrite (Hout call_next). cbn [fst snd].
  split; [reflexivity |]. split; [exact Hout |].
  unfold stored_state in Hkeep. inversion Hkeep. auto.
Qed.

(** X19.  A request over the limit never reaches the handler either: the
    answer is 429 whatever the handler is, no task is created, so the call
    is counted neither in [total_calls] nor in the usage log, and the
    counter of the minute stays where it was. *)
Theorem throttled_request_is_not_served agent_id request call_next auth_header w key_doc w1 :
  authorization request = Some auth_header ->
  Py.truthy auth_header && Py.startswith auth_header "Bearer ak_" = true ->
  validate_api_key fromisoformat (Py.slice_from 7 auth_header) agent_id (later w)
  = (Ok (Some key_doc), w1) ->
  let rate_limit := default 100 (doc_rate_limit key_doc) in
  let key := cache_key_of (doc_id key_doc) (bucket w1) in
  rate_limit <= count_of (rate_limit_cache w1) key ->
  let out := __call__ fromisoformat float agent_id request call_next w in
  fst out = Ok (JSONResponse 429 "Rate limit exceeded") /\
  (forall call_next', __call__ fromisoformat float agent_id request call_next' w = out) /\
  db (snd out) = db w /\ tasks (snd out) = tasks w /\
  count_of (rate_limit_cache (snd out)) key = count_of (rate_limit_cache w) key.
Proof.
  intros Hauth Hprefix Hv rate_limit key Hover out.
  pose proof (keeps_validate_api_key fromisoformat stored_state (Py.slice_from 7 auth_header)
                agent_id blind_stored_state (later w)) as Hkeep.
  rewrite Hv in Hkeep. unfold stored_state in Hkeep. cbn [snd] in Hkeep.
  injection Hkeep as Hdb Hcache Htasks.
  change (db (later w)) with (db w) in Hdb.
  change (rate_limit_cache (later w)) with (rate_limit_cache w) in Hcache.
  change (tasks (later w)) with (tasks w) in Htasks.
  pose proof (check_rate_limit_throttled (doc_id key_doc) rate_limit w1 Hover) as Hc.
  set (w2 := set_cache _ _) in Hc.
  assert (Hout : forall call_next',
             __call__ fromisoformat float agent_id request call_next' w
             = (Ok (JSONResponse 429 "Rate limit exceeded"), w2)).
  { intros call_next'. rewrite (call_with_api_key _ _ _ _ _ _ _ Hauth Hprefix).
    apply try_except_Ok. unfold authenticated.
    fold (later w). rewrite (bind_Ok _ _ _ _ _ Hv).
    fold rate_limit. rewrite (bind_Ok _ _ _ _ _ Hc). reflexivity. }
  subst out. rewrite (Hout call_next). cbn [fst snd].
  split; [reflexivity |]. split; [exact Hout |].
  split; [exact Hdb |]. split; [exact Htasks |].
  subst w2. cbn [rate_limit_cache set_cache]. fold key. rewrite <- Hcache.
  unfold count_of. destruct (rate_limit_cache w1 !! key) eqn:E; [rewrite E; reflexivity |].
  rewrite lookup_insert_eq. reflexivity.
Qed.

End Paths.

(* ===================================================================== *)
(** ** From the request to the usage log *)
(* ===================================================================== *)


Section Served.

Variable fromisoformat : string -> option datetime.
Variable float : string -> option Q.


(** X22.  The header that the tester builds carries the key as the middleware
    reads it: for a key with the prefix ["ak_"] the middleware validates
    exactly the key that the tester was given, and a key without the prefix,
    like a tester without any key, reaches the handler unauthenticated, so
    the middleware answers no 401 for it. *)
Theorem tester_header_reaches_the_validator self_api_key api_key path verb agent_id call_next w :
  let hs := Tester._create_auth_header self_api_key api_key in
  let request := request_with hs path verb in
  let out := __call__ fromisoformat float agent_id request call_next w in
  match Tester.or_else api_key self_api_key with
  | Some key =>
      if Py.startswith key "ak_" then
        out = try_except
                (authenticated fromisoformat float agent_id key (clock w (reads w))
                               request call_next)
                (fun e =>
                   log ERROR ("API key validation error: " +:+ exn_str e) ;;
                   ret (JSONResponse 500 "API key validation failed"))
                (later w)
      else out = call_next request (later w)
  | None => out = call_next request (later w)
  end.
Proof.
  intros hs request out. subst out request hs. unfold Tester._create_auth_header.
  destruct (Tester.or_else api_key self_api_key) as [key|]; [| reflexivity].
  destruct key as [|c key]; [reflexivity |].
  cbn [Py.truthy negb].
  set (request := request_with _ path verb).
  assert (Hauth : authorization request = Some ("Bearer " +:+ String c key)) by reflexivity.
  assert (Hsame : Py.truthy ("Bearer " +:+ String c key)
                  && Py.startswith ("Bearer " +:+ String c key) "Bearer ak_"
                  = Py.startswith (String c key) "ak_") by reflexivity.
  destruct (Py.startswith (String c key) "ak_") eqn:Hprefix.
  - rewrite (call_with_api_key fromisoformat float agent_id request call_next _ w Hauth Hsame).
    reflexivity.
  - unfold __call__, bind at 1, time_time. rewrite Hauth, Hsame. reflexivity.
Qed.

End Served.

(* ===================================================================== *)
(** ** The counts of a test suite *)
(* ===================================================================== *)




(* ===================================================================== *)
(** ** The further properties at the sample validator *)
(* ===================================================================== *)

(** The key [ak_live] is accepted for its own agent. *)
Lemma validate_api_key_sound_witness :
  In key_live (api_keys (db sample_world)) /\
  doc_agent_id key_live = "agent-1"%string /\ doc_status key_live = "active"%string /\
  doc_key_hash key_live = Some (sha256_hexdigest "ak_live") /\
  not_expired fromisoformat_basic (utc_now sample_world) key_live = true.
Proof.
  apply (validate_api_key_sound fromisoformat_basic "ak_live" "agent-1" sample_world key_live).
  vm_compute. reflexivity.
Defined.

(** The key [ak_live] presented to another agent. *)
Lemma validate_api_key_refuses_foreign_keys_witness :
  fst (validate_api_key fromisoformat_basic "ak_live" "agent-2" sample_world) = Ok None.
Proof.
  apply (validate_api_key_refuses_foreign_keys fromisoformat_basic "ak_live" "agent-2"
           sample_world).
  intros d [<- | [<- | [<- | []]]] _; left; discriminate.
Defined.

(** The expiry of [key_naive] names no zone. *)
Lemma validate_api_key_unreadable_expiry_witness :
  fst (validate_api_key fromisoformat_basic "ak_naive" "agent-1" naive_world) = Ok None.
Proof.
  apply (validate_api_key_unreadable_expiry fromisoformat_basic "ak_naive" "agent-1" naive_world
           [] key_naive [] "2099-01-01T00:00:00");
    [reflexivity | reflexivity | constructor | reflexivity | reflexivity | reflexivity |
     vm_compute; reflexivity].
Defined.

Lemma cache_key_round_trip_witness :
  cache_minute_of (cache_key_of "key1" 28333333) = Ok 28333333 /\
  forall api_key_id' minute_window',
    colon_free api_key_id' = true ->
    cache_key_of "key1" 28333333 = cache_key_of api_key_id' minute_window' ->
    "key1"%string = api_key_id' /\ 28333333 = minute_window'.
Proof. apply (cache_key_round_trip "key1" 28333333). reflexivity. Defined.

(** Three calls at the end of minute 28333333 and three at the start of
    the next, with the limit 3. *)
Lemma burst_across_the_minute_witness :
  exists w',
    check_rate_limits (repeat ("key1"%string, 3) (Z.to_nat 3 + Z.to_nat 3)) window_world
    = (Ok (repeat true (Z.to_nat 3 + Z.to_nat 3)), w').
Proof.
  apply (burst_across_the_minute "key1" 3 28333333 window_world);
    [reflexivity | lia | apply readable_empty | reflexivity | reflexivity | | ].
  - intros i Hi. apply Nat.ltb_lt in Hi.
    do 3 (destruct i as [|i]; [vm_compute; reflexivity |]). discriminate Hi.
  - intros i Hi. apply Nat.ltb_lt in Hi.
    do 3 (destruct i as [|i]; [vm_compute; reflexivity |]). discriminate Hi.
Defined.

Lemma cache_holds_two_minutes_witness :
  exists answers w',
    check_rate_limits [("key1"%string, 2); ("key2"%string, 5)] window_world = (Ok answers, w') /\
    in_window (minute_of (clock window_world (reads window_world + (2 - 1))%nat))
              (rate_limit_cache w').
Proof.
  apply (cache_holds_two_minutes [("key1"%string, 2); ("key2"%string, 5)] 28333333 window_world).
  - constructor; [split; reflexivity |].
    constructor; [split; reflexivity | constructor].
  - apply in_window_empty.
  - apply Z.leb_le. vm_compute. reflexivity.
  - intros i Hi. destruct i as [|i]; [apply Z.leb_le; vm_compute; reflexivity |].
    cbn [List.length] in Hi. lia.
  - discriminate.
Defined.


Lemma track_usage_counts_one_call_witness :
  total_calls_of "key1" (db (snd (track_usage "key1" sample_usage sample_world))) = Some 1 /\
  List.length (api_key_usage_logs (db (snd (track_usage "key1" sample_usage sample_world))))
  = 1%nat.
Proof.
  destruct (track_usage_counts_one_call "key1" sample_usage sample_world eq_refl eq_refl)
    as (Hcalls & _ & _ & Hlogs & _).
  rewrite Hcalls, Hlogs. split; reflexivity.
Defined.

Lemma track_usage_failed_update_writes_nothing_witness :
  fst (track_usage "key1" sample_usage outage_world) = Ok tt /\
  db (snd (track_usage "key1" sample_usage outage_world)) = db outage_world /\
  exists e,
    logged (snd (track_usage "key1" sample_usage outage_world))
    = (ERROR, "Failed to track usage for API key " +:+ "key1" +:+ ": " +:+ exn_str e)
      :: logged outage_world.
Proof.
  apply (track_usage_failed_update_writes_nothing "key1" sample_usage outage_world).
  left. reflexivity.
Defined.

Lemma track_usage_counts_without_log_entry_witness :
  let w := set_outages [false; true] sample_world in
  total_calls_of "key1" (db (snd (track_usage "key1" sample_usage w))) = Some 1 /\
  api_key_usage_logs (db (snd (track_usage "key1" sample_usage w))) = [].
Proof.
  intros w.
  destruct (track_usage_counts_without_log_entry "key1" sample_usage w [] eq_refl eq_refl)
    as (Hcalls & Hlogs & _).
  rewrite Hcalls, Hlogs. split; reflexivity.
Defined.

Lemma track_usage_hides_billing_failure_witness :
  let w := set_outages [false; false; true] sample_world in
  agent_usage_summary (db (snd (track_usage "key1" sample_usage w))) = ∅ /\
  hd_error (logged (snd (track_usage "key1" sample_usage w)))
  = Some (INFO, "Usage tracked for API key key1"%string).
Proof.
  intros w.
  destruct (track_usage_hides_billing_failure "key1" sample_usage w []
              (or_introl eq_refl) eq_refl eq_refl) as (_ & _ & Hsum & Hlog).
  rewrite Hsum, Hlog. split; reflexivity.
Defined.

Lemma usage_adds_up_witness :
  exists s,
    agent_usage_summary (db (snd (track_usages "key1" [sample_usage; sample_usage] sample_world)))
    !! "agent-1"%string = Some s /\
    totalMessages s = 2 /\ totalTokens s = 84 /\ apiKeyUsage s = 2 /\ webUsage s = 0.
Proof.
  destruct (usage_adds_up "key1" "agent-1" [sample_usage; sample_usage] sample_world
              eq_refl eq_refl) as ((s & Hs & Hm & Ht & Ha & Hw) & _).
  - constructor; [split; reflexivity |]. constructor; [split; reflexivity | constructor].
  - discriminate.
  - exists s. split; [exact Hs |]. rewrite Hm, Ht, Ha, Hw. repeat split.
Defined.


Lemma unreadable_usage_header_answers_500_witness :
  fst (__call__ fromisoformat_basic float_basic "agent-1"
                (sample_request (Some "Bearer ak_live"%string)) garbled_handler sample_world)
  = Ok (JSONResponse 500 "API key validation failed").
Proof.
  set (request := sample_request (Some "Bearer ak_live"%string)).
  set (valid := validate_api_key fromisoformat_basic "ak_live" "agent-1" (later sample_world)).
  set (limit := check_rate_limit "key1" 2 (snd valid)).
  set (next := garbled_handler (with_identity key_live request) (snd limit)).
  assert (Hvalid : valid = (Ok (Some key_live), snd valid)) by (vm_compute; reflexivity).
  assert (Hlimit : limit = (Ok true, snd limit)) by (vm_compute; reflexivity).
  assert (Hnext : next = (Ok {| status_code := 200; headers := [("X-Token-Count", "many")]%string;
                                body := "ok" |}, snd next)) by (vm_compute; reflexivity).
  apply (unreadable_usage_header_answers_500 fromisoformat_basic float_basic "agent-1" request
           garbled_handler "Bearer ak_live" sample_world key_live (snd valid) (snd limit) _
           (snd next) eq_refl eq_refl Hvalid Hlimit Hnext).
  left. vm_compute. reflexivity.
Defined.

(** A key that no document holds. *)
Lemma refused_key_never_reaches_the_handler_witness :
  let out := __call__ fromisoformat_basic float_basic "agent-1"
                      (sample_request (Some "Bearer ak_unknown"%string)) echo_handler
                      sample_world in
  fst out = Ok (JSONResponse 401 "Invalid or inactive API key") /\
  (forall call_next',
      __call__ fromisoformat_basic float_basic "agent-1"
               (sample_request (Some "Bearer ak_unknown"%string)) call_next' sample_world = out) /\
  db (snd out) = db sample_world /\ rate_limit_cache (snd out) = rate_limit_cache sample_world /\
  tasks (snd out) = tasks sample_world.
Proof.
  apply (refused_key_never_reaches_the_handler fromisoformat_basic float_basic "agent-1"
           (sample_request (Some "Bearer ak_unknown"%string)) echo_handler
           "Bearer ak_unknown" sample_world eq_refl eq_refl).
  vm_compute. reflexivity.
Defined.

(** The key [ak_zero] has the limit 0. *)
Lemma throttled_request_is_not_served_witness :
  fst (__call__ fromisoformat_basic float_basic "agent-1"
                (sample_request (Some "Bearer ak_zero"%string)) echo_handler sample_world)
  = Ok (JSONResponse 429 "Rate limit exceeded") /\
  tasks (snd (__call__ fromisoformat_basic float_basic "agent-1"
                       (sample_request (Some "Bearer ak_zero"%string)) echo_handler sample_world))
  = tasks sample_world.
Proof.
  set (valid := validate_api_key fromisoformat_basic "ak_zero" "agent-1" (later sample_world)).
  assert (Hvalid : valid = (Ok (Some key_zero), snd valid)) by (vm_compute; reflexivity).
  destruct (throttled_request_is_not_served fromisoformat_basic float_basic "agent-1"
              (sample_request (Some "Bearer ak_zero"%string)) echo_handler
              "Bearer ak_zero" sample_world key_zero (snd valid) eq_refl eq_refl Hvalid)
    as (Hout & _ & _ & Htasks & _).
  - apply Z.leb_le. vm_compute. reflexivity.
  - split; [exact Hout | exact Htasks].
Defined.


